(** * Seeding, factory and CRUD tests around a Prisma client

    A shallow embedding of [prisma/seed.ts], of the category factory and of
    the Jest CRUD suite, over a model of the generated data-access client. *)

From stdpp Require Import gmap strings list pretty.

(** ** Data model *)

(** A JavaScript object with string-valued properties: the [data] argument
    of [create] and the rows the client returns. *)
Abbreviation Row := (gmap string string).

(** The three models of [schema.prisma]. *)
Inductive EntityKind := KUser | KPost | KCategory.

Global Instance EntityKind_eq_dec : EqDecision EntityKind.
Proof. solve_decision. Defined.

(** Failures a call can raise.  The first four are the client's, the last
    is Jest's failed [expect]. *)
Inductive Error :=
  | ConstraintViolation
  | ConnectivityFailure
  | RecordNotFound
  | QueryError
  | AssertionFailed.

Global Instance Error_eq_dec : EqDecision Error.
Proof. solve_decision. Defined.

(** Result of running an async function to completion: the promise is
    fulfilled, rejected, or the process was ended by [process.exit]. *)
Inductive Result (A : Type) :=
  | Ok (a : A)
  | Err (e : Error)
  | Exited (code : nat).
Arguments Ok {A} a.
Arguments Err {A} e.
Arguments Exited {A} code.

(** What the process did, in order. *)
Inductive Event :=
  | EvCreate (k : EntityKind) (data : Row) (reply : Error + Row)
  | EvFindUnique (k : EntityKind) (id : option string)
  | EvFindMany (k : EntityKind)
  | EvDelete (k : EntityKind) (id : option string)
  | EvConsoleLog (e : Error)
  | EvConsoleError (e : Error)
  | EvDisconnect
  | EvUpdate (k : EntityKind) (id : option string) (data : Row).

(** The persistent store behind the client. *)
Record Store := mkStore {
  users : list Row;
  posts : list Row;
  categories : list Row;
  nextId : nat;
}.

(** [@faker-js/faker]: each generator maps the number of values drawn so
    far to the next value. *)
Record Faker := mkFaker {
  person_firstName : nat → string;
  person_fullName : nat → string;
  internet_email : nat → string;
  lorem_word : nat → string;
}.

(** The store together with the process's environment: the schedule of
    connectivity outages ([true]: the next call finds the store
    unreachable), the faker generators and the number of values drawn
    from them, and the trace of what the process did. *)
Record World := mkWorld {
  store : Store;
  outages : list bool;
  faker : Faker;
  draws : nat;
  trace : list Event;
}.

Definition table (k : EntityKind) (s : Store) : list Row :=
  match k with
  | KUser => users s
  | KPost => posts s
  | KCategory => categories s
  end.

Definition set_table (k : EntityKind) (rows : list Row) (s : Store) : Store :=
  match k with
  | KUser => mkStore rows (posts s) (categories s) (nextId s)
  | KPost => mkStore (users s) rows (categories s) (nextId s)
  | KCategory => mkStore (users s) (posts s) rows (nextId s)
  end.

Definition bump (s : Store) : Store :=
  mkStore (users s) (posts s) (categories s) (S (nextId s)).

Definition with_store (s : Store) (w : World) : World :=
  mkWorld s (outages w) (faker w) (draws w) (trace w).

Definition emit (ev : Event) (w : World) : World :=
  mkWorld (store w) (outages w) (faker w) (draws w) (trace w ++ [ev]).

(** ** Async computations: state and rejection *)

Definition M (A : Type) : Type := World → World * Result A.

Definition ret {A} (a : A) : M A := λ w, (w, Ok a).

Definition throw {A} (e : Error) : M A := λ w, (w, Err e).

(** [await p] followed by the rest of the function body. *)
Definition bind {A B} (p : M A) (f : A → M B) : M B := λ w,
  match p w with
  | (w1, Ok a) => f a w1
  | (w1, Err e) => (w1, Err e)
  | (w1, Exited c) => (w1, Exited c)
  end.

(** [try { p } catch (error) { h error }], and a promise's [.catch(h)]. *)
Definition try_catch {A} (p : M A) (h : Error → M A) : M A := λ w,
  match p w with
  | (w1, Ok a) => (w1, Ok a)
  | (w1, Err e) => h e w1
  | (w1, Exited c) => (w1, Exited c)
  end.

Declare Scope async_scope.
Delimit Scope async_scope with async.
Notation "x <- p ;; q" := (bind p (λ x, q))
  (at level 100, p at next level, right associativity) : async_scope.
Notation "p ;;; q" := (bind p (λ _, q))
  (at level 100, right associativity) : async_scope.
Open Scope async_scope.

(** [for (let i = 0; i < n; i++) { await body }], by the number of
    iterations still to run. *)
Fixpoint for_loop (n : nat) (body : M unit) : M unit :=
  match n with
  | 0 => ret tt
  | S n' => body ;;; for_loop n' body
  end.


(** The object literal [{ col: v }], where [v] is the result of a property
    read: a property whose value is [undefined] counts as absent. *)
Definition property (col : string) (v : option string) : Row :=
  match v with
  | Some x => <[col := x]> ∅
  | None => ∅
  end.

(** ** The data-access client *)

(** The generated Prisma client ([@prisma/client], [@/client]) is not part
    of the sources.  Its operations are modelled below from section 6 of
    the specification and from the models of [schema.prisma] quoted in the
    README: every model has [id String @id @default(uuid())] and required
    [String] columns. *)

(** Modelled from the spec: the system-assigned identifier of the absent
    client, [@default(uuid())]; [uuid n] is the [n]-th identifier the store
    hands out. *)
Definition uuid (n : nat) : string := "id-" +:+ pretty n.

(** The required columns of the three models of [schema.prisma]. *)
Definition required (k : EntityKind) : list string :=
  match k with
  | KUser => ["email"; "name"]
  | KPost => ["title"; "content"; "userId"; "categoryId"]
  | KCategory => ["name"]
  end.

Definition has_id (i : string) (r : Row) : Prop := r !! "id" = Some i.

Global Instance has_id_dec i r : Decision (has_id i r).
Proof. unfold has_id. apply _. Defined.

Definition find_row (i : string) (rows : list Row) : option Row :=
  head (filter (has_id i) rows).

Definition refers (data : Row) (col : string) (rows : list Row) : bool :=
  match data !! col with
  | Some i => bool_decide (is_Some (find_row i rows))
  | None => false
  end.

Definition foreign_keys_ok (k : EntityKind) (data : Row) (s : Store) : bool :=
  match k with
  | KPost => refers data "userId" (users s) && refers data "categoryId" (categories s)
  | _ => true
  end.

Definition has_required (k : EntityKind) (data : Row) : bool :=
  forallb (λ c, bool_decide (is_Some (data !! c))) (required k).

(** Modelled from the spec: insert(entityKind, fields) of the absent
    client.  The persisted record is all fields plus the system-assigned
    identifier; a missing required field, a dangling foreign key or a clash
    on the primary key is a constraint violation. *)
Definition insert (k : EntityKind) (data : Row) (s : Store)
  : Store * (Error + Row) :=
  if negb (has_required k data) then (s, inl ConstraintViolation)
  else if negb (foreign_keys_ok k data s) then (s, inl ConstraintViolation)
  else
    let i := uuid (nextId s) in
    if bool_decide (is_Some (find_row i (table k s)))
    then (bump s, inl ConstraintViolation)
    else
      let r := <["id" := i]> data in
      (set_table k (table k s ++ [r]) (bump s), inr r).

(** Modelled from the spec: delete(entityKind, identifier) of the absent
    client.  It removes the record and fails if the identifier does not
    exist. *)
Definition remove (k : EntityKind) (i : string) (s : Store)
  : Store * (Error + Row) :=
  match find_row i (table k s) with
  | Some r => (set_table k (filter (λ r', ¬ has_id i r') (table k s)) s, inr r)
  | None => (s, inl RecordNotFound)
  end.

(** Modelled from the spec: the connectivity failure of the absent client.
    Every call first has to reach the store, and consumes one entry of the
    schedule of outages. *)
Definition dial (w : World) : bool * World :=
  match outages w with
  | down :: rest =>
      (negb down, mkWorld (store w) rest (faker w) (draws w) (trace w))
  | [] => (true, w)
  end.

Definition settle {A} (reply : Error + A) : Result A :=
  match reply with
  | inl e => Err e
  | inr a => Ok a
  end.

(** Modelled from the spec: [prisma.<model>.create({ data })] of the absent
    client, the insert above behind the connection. *)
Definition create (k : EntityKind) (data : Row) : M Row := λ w,
  let (up, w0) := dial w in
  let (s, reply) :=
    if up then insert k data (store w0)
    else (store w0, inl ConnectivityFailure) in
  (emit (EvCreate k data reply) (with_store s w0), settle reply).

(** Modelled from the spec: findOne(entityKind, identifier) of the absent
    client, [prisma.<model>.findUnique({ where: { id } })].  It returns the
    record or an explicit empty result and never fails for a missing
    record; [where: { id: undefined }] is a query error. *)
Definition findUnique (k : EntityKind) (where_id : option string)
  : M (option Row) := λ w,
  let (up, w0) := dial w in
  let w1 := emit (EvFindUnique k where_id) w0 in
  if up then
    match where_id with
    | Some i => (w1, Ok (find_row i (table k (store w1))))
    | None => (w1, Err QueryError)
    end
  else (w1, Err ConnectivityFailure).

(** Modelled from the spec: findAll(entityKind) of the absent client,
    [prisma.<model>.findMany()]. *)
Definition findMany (k : EntityKind) : M (list Row) := λ w,
  let (up, w0) := dial w in
  let w1 := emit (EvFindMany k) w0 in
  if up then (w1, Ok (table k (store w1)))
  else (w1, Err ConnectivityFailure).

(** Modelled from the spec: [prisma.<model>.delete({ where: { id } })] of
    the absent client, the removal above behind the connection. *)
Definition delete (k : EntityKind) (where_id : option string) : M Row := λ w,
  let (up, w0) := dial w in
  let w1 := emit (EvDelete k where_id) w0 in
  if up then
    match where_id with
    | Some i =>
        let (s, reply) := remove k i (store w1) in
        (with_store s w1, settle reply)
    | None => (w1, Err QueryError)
    end
  else (w1, Err ConnectivityFailure).

(** Modelled from the spec: the update of section 3 of the absent client,
    a full-record overwrite: the row under the identifier is replaced by
    the given fields, and keeps its identifier and its place.  It fails if
    the identifier does not exist, and on the constraints of an insertion. *)
Definition overwrite (k : EntityKind) (i : string) (data : Row) (s : Store)
  : Store * (Error + Row) :=
  match find_row i (table k s) with
  | None => (s, inl RecordNotFound)
  | Some _ =>
      if negb (has_required k data) then (s, inl ConstraintViolation)
      else if negb (foreign_keys_ok k data s) then (s, inl ConstraintViolation)
      else
        let r := <["id" := i]> data in
        (set_table k
           ((λ r0, if decide (has_id i r0) then r else r0) <$> table k s) s,
         inr r)
  end.

(** Modelled from the spec: [prisma.<model>.update({ where: { id }, data })]
    of the absent client, the overwrite above behind the connection. *)
Definition update (k : EntityKind) (where_id : option string) (data : Row)
  : M Row := λ w,
  let (up, w0) := dial w in
  let w1 := emit (EvUpdate k where_id data) w0 in
  if up then
    match where_id with
    | Some i =>
        let (s, reply) := overwrite k i data (store w1) in
        (with_store s w1, settle reply)
    | None => (w1, Err QueryError)
    end
  else (w1, Err ConnectivityFailure).

(** Modelled from the spec: [db.$disconnect()] of the absent client, the
    release of the held connection. *)
Definition disconnect : M unit := λ w, (emit EvDisconnect w, Ok tt).

(** ** Node and Jest primitives *)

Definition console_log (e : Error) : M unit := λ w, (emit (EvConsoleLog e) w, Ok tt).

Definition console_error (e : Error) : M unit := λ w, (emit (EvConsoleError e) w, Ok tt).

Definition process_exit {A} (code : nat) : M A := λ w, (w, Exited code).

(** The world after one faker draw. *)
Definition drawn (w : World) : World :=
  mkWorld (store w) (outages w) (faker w) (S (draws w)) (trace w).

(** One call of a faker generator. *)
Definition draw (gen : Faker → nat → string) : M string := λ w,
  (drawn w, Ok (gen (faker w) (draws w))).

Definition expect_toEqual {A} `{EqDecision A} (received expected : A) : M unit :=
  if decide (received = expected) then ret tt else throw AssertionFailed.

Definition expect_toBe {A} `{EqDecision A} (received expected : A) : M unit :=
  if decide (received = expected) then ret tt else throw AssertionFailed.

Definition expect_toBeNull {A} (received : option A) : M unit :=
  match received with
  | None => ret tt
  | Some _ => throw AssertionFailed
  end.

Definition expect_toBeGreaterThan (received expected : nat) : M unit :=
  if decide (expected < received) then ret tt else throw AssertionFailed.

Definition expect_toHaveLength {A} (received : list A) (expected : nat) : M unit :=
  if decide (length received = expected) then ret tt else throw AssertionFailed.

(** ** [prisma/seed.ts] *)

Module Seed.

Definition fakerUser : M Row :=
  name <- draw person_firstName ;;
  email <- draw internet_email ;;
  ret (<["name" := name]> (<["email" := email]> ∅)).

Definition fakerRounds : nat := 10.

Definition round : M unit :=
  data <- fakerUser ;;
  _ <- create KUser data ;;
  ret tt.

Definition main : M unit :=
  try_catch (for_loop fakerRounds round) (λ error, console_log error).

(** [p.then(async () => { await db.$disconnect() })
      .catch(async (e) => { console.error(e); await db.$disconnect();
                            process.exit(1) })] *)
Definition top_level (p : M unit) : M unit :=
  try_catch
    (p ;;; disconnect)
    (λ e, console_error e ;;; disconnect ;;; process_exit 1).

Definition script : M unit := top_level main.

End Seed.

(** The status the process ends with: [process.exit]'s argument, 0 when the
    event loop drains, 1 on an unhandled rejection. *)
Definition exit_status {A} (r : Result A) : nat :=
  match r with
  | Ok _ => 0
  | Err _ => 1
  | Exited code => code
  end.

(** ** The category factory *)

Module Factories.

Definition categoryFactory : M Row :=
  name <- draw lorem_word ;;
  let categoryData : Row := <["name" := name]> ∅ in
  category <- create KCategory (property "name" (categoryData !! "name")) ;;
  ret category.

End Factories.

(** ** The Jest suite *)

Module CrudTest.

Definition fakerUser : M Row :=
  name <- draw person_fullName ;;
  email <- draw internet_email ;;
  ret (<["name" := name]> (<["email" := email]> ∅)).

Definition userData : M Row :=
  email <- draw internet_email ;;
  name <- draw person_fullName ;;
  ret (<["email" := email]> (<["name" := name]> ∅)).

(** test("should create new user") *)
Definition should_create_new_user : M unit :=
  data <- fakerUser ;;
  createdUser <- create KUser data ;;
  findCreatedUserInDb <- findUnique KUser (createdUser !! "id") ;;
  expect_toEqual (Some createdUser) findCreatedUserInDb.

(** test("should get all users") *)
Definition should_get_all_users : M unit :=
  users <- findMany KUser ;;
  expect_toBeGreaterThan (length users) 0.

(** test("should update user information") *)
Definition should_update_user_information : M unit :=
  userData <- userData ;;
  createdUser <- create KUser userData ;;
  expect_toBe (createdUser !! "email") (userData !! "email") ;;;
  expect_toBe (createdUser !! "name") (userData !! "name").

(** test("should delete a specific user") *)
Definition should_delete_a_specific_user : M unit :=
  userData <- userData ;;
  createdUser <- create KUser userData ;;
  _ <- delete KUser (createdUser !! "id") ;;
  foundUser <- findUnique KUser (createdUser !! "id") ;;
  expect_toBeNull foundUser.

(** The loop of the factory test: [n] awaited calls, each result pushed
    onto [createdCategories]. *)
Fixpoint generate (n : nat) (createdCategories : list Row) : M (list Row) :=
  match n with
  | 0 => ret createdCategories
  | S n' =>
      createdCategory <- Factories.categoryFactory ;;
      generate n' (createdCategories ++ [createdCategory])
  end.

Definition numberOfCategoriesToGenerate : nat := 5.

(** test(" Test factory to Generate and insert five categories") *)
Definition factory_generates_five_categories : M unit :=
  createdCategories <- generate numberOfCategoriesToGenerate [] ;;
  expect_toHaveLength createdCategories numberOfCategoriesToGenerate.

End CrudTest.

(** ** Sample worlds *)

Definition sample_faker : Faker :=
  mkFaker (λ n, "Ada" +:+ pretty n) (λ n, "Ada Lovelace " +:+ pretty n)
          (λ n, "ada" +:+ pretty n +:+ "@example.com") (λ n, "lorem" +:+ pretty n).

Definition empty_store : Store := mkStore [] [] [] 0.

Definition world0 (faults : list bool) : World :=
  mkWorld empty_store faults sample_faker 0 [].


(** ** Observing a run *)

(** The events a run from [w] to [w'] added to the trace. *)
Definition news (w w' : World) : list Event :=
  drop (length (trace w)) (trace w').

Definition is_attempt (ev : Event) : bool :=
  match ev with
  | EvCreate _ _ _ => true
  | _ => false
  end.

Definition is_failure (ev : Event) : bool :=
  match ev with
  | EvCreate _ _ (inl _) => true
  | _ => false
  end.

Definition is_success (ev : Event) : bool :=
  match ev with
  | EvCreate _ _ (inr _) => true
  | _ => false
  end.

(** The insertions a run attempted, in order. *)
Definition attempts (evs : list Event) : list Event := filter is_attempt evs.

(** An event in which the identifier comes from the store alone: an
    insertion whose payload has no [id], and whose row, when there is one,
    carries an identifier the store handed out from [n0] on. *)
Definition store_assigned (n0 : nat) (ev : Event) : Prop :=
  match ev with
  | EvCreate _ data reply =>
      data !! "id" = None
      ∧ match reply with
        | inr r => ∃ n, n0 ≤ n ∧ r !! "id" = Some (uuid n)
        | inl _ => True
        end
  | _ => True
  end.

(** A computation all of whose insertions leave the identifier to the
    store, and whose result, when it is fulfilled, satisfies [Q]. *)
Definition tidy {A} (Q : A → Prop) (p : M A) : Prop :=
  ∀ w : World,
    nextId (store w) ≤ nextId (store (fst (p w)))
    ∧ (∃ evs, trace (fst (p w)) = trace w ++ evs
              ∧ Forall (store_assigned (nextId (store w))) evs)
    ∧ (∀ a, snd (p w) = Ok a → Q a).

(** The payloads the components build: [name] and [email], nothing else. *)
Definition name_and_email (d : Row) : Prop :=
  dom d = {["name"; "email"]} ∧ d !! "id" = None.

(** Any later use of the client. *)
Inductive Call :=
  | CallCreate (k : EntityKind) (data : Row)
  | CallFindUnique (k : EntityKind) (where_id : option string)
  | CallFindMany (k : EntityKind)
  | CallDelete (k : EntityKind) (where_id : option string)
  | CallUpdate (k : EntityKind) (where_id : option string) (data : Row).

Definition perform (c : Call) (w : World) : World :=
  match c with
  | CallCreate k data => fst (create k data w)
  | CallFindUnique k i => fst (findUnique k i w)
  | CallFindMany k => fst (findMany k w)
  | CallDelete k i => fst (delete k i w)
  | CallUpdate k i data => fst (update k i data w)
  end.

Definition perform_all (cs : list Call) (w : World) : World :=
  foldl (λ w' c, perform c w') w cs.

(** Every row carries an identifier the store has handed out. *)
Definition store_wf (s : Store) : Prop :=
  ∀ (k : EntityKind) (r : Row),
    r ∈ table k s → ∃ n, n < nextId s ∧ r !! "id" = Some (uuid n).

(** The store stays reachable. *)
Definition always_up (w : World) : Prop := Forall (λ down, down = false) (outages w).

(** The rows of table [k] that carry the identifier [i]. *)
Definition carriers (k : EntityKind) (i : string) (w : World) : list Row :=
  filter (has_id i) (table k (store w)).

(** A call that asks for the deletion of the record [i] of kind [k]. *)
Definition is_delete_of (k : EntityKind) (i : string) (c : Call) : bool :=
  match c with
  | CallDelete k' (Some i') => bool_decide (k' = k ∧ i' = i)
  | _ => false
  end.

(** A call that asks for the overwrite of the record [i] of kind [k]. *)
Definition is_update_of (k : EntityKind) (i : string) (c : Call) : bool :=
  match c with
  | CallUpdate k' (Some i') _ => bool_decide (k' = k ∧ i' = i)
  | _ => false
  end.

(** ** The article's variants *)

(** [p.finally(f)]: [f] runs once [p] is settled, and the outcome of [p] is
    kept; nothing runs after [process.exit]. *)
Definition finally_ {A} (p : M A) (f : M unit) : M A := λ w,
  match p w with
  | (w1, Ok a) => (f ;;; ret a) w1
  | (w1, Err e) => (f ;;; throw e) w1
  | (w1, Exited c) => (w1, Exited c)
  end.

(** The seed script and the factory as the article prints them.
    [faker.name.firstName] is the generator [name_firstName]. *)
Module Article.

Definition round (name_firstName : Faker → nat → string) : M unit :=
  name <- draw name_firstName ;;
  email <- draw internet_email ;;
  _ <- create KUser (<["name" := name]> (<["email" := email]> ∅)) ;;
  ret tt.

Definition main (name_firstName : Faker → nat → string) : M unit :=
  for_loop 10 (round name_firstName).

(** [main().catch((e) => { console.error(e); process.exit(1) })
          .finally(async () => { await prisma.$disconnect() })] *)
Definition script (name_firstName : Faker → nat → string) : M unit :=
  finally_
    (try_catch (main name_firstName)
       (λ e, console_error e ;;; process_exit 1))
    disconnect.

Definition categoryFactory : M Row :=
  name <- draw lorem_word ;;
  let categoryData : Row := <["name" := name]> ∅ in
  category <- create KCategory categoryData ;;
  ret category.

(** test("should create new user"), with [faker.name.fullName] the
    generator [name_fullName]. *)
Definition should_create_new_user (name_fullName : Faker → nat → string)
  : M unit :=
  name <- draw name_fullName ;;
  email <- draw internet_email ;;
  let userData : Row := <["name" := name]> (<["email" := email]> ∅) in
  createdUser <- create KUser userData ;;
  findUser <- findUnique KUser (createdUser !! "id") ;;
  expect_toEqual (Some createdUser) findUser.

End Article.

(** ** The test file, run by Jest *)

(** Jest runs the tests of a file one after the other, in the order of
    their declaration, each to completion, whatever the verdict of the
    ones before. *)
Fixpoint run_tests (tests : list (M unit)) (w : World)
  : World * list (Result unit) :=
  match tests with
  | [] => (w, [])
  | t :: tests' =>
      let (w1, verdict) := t w in
      let (w', verdicts) := run_tests tests' w1 in
      (w', verdict :: verdicts)
  end.

(** The five tests, in the order of the file. *)
Definition crud_tests : list (M unit) :=
  [CrudTest.should_create_new_user;
   CrudTest.should_get_all_users;
   CrudTest.should_update_user_information;
   CrudTest.should_delete_a_specific_user;
   CrudTest.factory_generates_five_categories].

(** ** Predicates on worlds and runs *)

(** A consistent store that stays reachable. *)
Definition healthy (w : World) : Prop := store_wf (store w) ∧ always_up w.

(** The user the seeder inserts in round [i] of a run from [w] in which
    every insertion is fulfilled. *)
Definition seeded_user (w : World) (i : nat) : Row :=
  <["id" := uuid (nextId (store w) + i)]>
    (<["name" := person_firstName (faker w) (draws w + 2 * i)]>
       (<["email" := internet_email (faker w) (draws w + 2 * i + 1)]> ∅)).

(** The events of a seed run: insertions of users, logging, release. *)
Definition seed_event (ev : Event) : Prop :=
  match ev with
  | EvCreate KUser _ _ | EvConsoleLog _ | EvConsoleError _ | EvDisconnect => True
  | _ => False
  end.

(** What a seed run may do to the world: append users and seed events. *)
Definition seed_frame (w w' : World) : Prop :=
  posts (store w') = posts (store w)
  ∧ categories (store w') = categories (store w)
  ∧ users (store w) `prefix_of` users (store w')
  ∧ ∃ evs, trace w' = trace w ++ evs ∧ Forall seed_event evs.

(** Rows are only ever appended, and posts are left alone. *)
Definition grows (w w' : World) : Prop :=
  users (store w) `prefix_of` users (store w')
  ∧ categories (store w) `prefix_of` categories (store w')
  ∧ posts (store w') = posts (store w).

(** Consistency of the store is kept. *)
Definition wf_kept (w w' : World) : Prop :=
  store_wf (store w) → store_wf (store w').

(** A computation that relates every world to the world it leaves. *)
Definition stable (R : World → World → Prop) {A} (p : M A) : Prop :=
  ∀ w, R w (fst (p w)).

(** A loop body that attempts one insertion of a user: fulfilled, it
    appends the row; rejected, it is rejected with the same error. *)
Definition inserts_one_user (body : M unit) : Prop :=
  ∀ w, ∃ data reply,
    trace (fst (body w)) = trace w ++ [EvCreate KUser data reply]
    ∧ match reply with
      | inr r => snd (body w) = Ok tt
                 ∧ users (store (fst (body w))) = users (store w) ++ [r]
      | inl e => snd (body w) = Err e
                 ∧ users (store (fst (body w))) = users (store w)
      end.

(** ** Sequencing *)

Lemma bind_Ok {A B} (p : M A) (f : A → M B) (w w1 : World) (a : A) :
  p w = (w1, Ok a) → bind p f w = f a w1.
Proof. unfold bind. by intros ->. Qed.

Lemma bind_Err {A B} (p : M A) (f : A → M B) (w w1 : World) (e : Error) :
  p w = (w1, Err e) → bind p f w = (w1, Err e).
Proof. unfold bind. by intros ->. Qed.

(** ** Facts about identifiers and row lookup *)

Lemma uuid_inj (m n : nat) : uuid m = uuid n → m = n.
Proof.
  unfold uuid. intros H. simpl in H. injection H as H.
  by apply (inj pretty).
Qed.

Lemma uuid_nonempty (n : nat) : uuid n ≠ "".
Proof. unfold uuid. simpl. discriminate. Qed.

Lemma find_row_None (i : string) (rows : list Row) :
  find_row i rows = None ↔ filter (has_id i) rows = [].
Proof.
  unfold find_row. destruct (filter (has_id i) rows); simpl; split; congruence.
Qed.

Lemma find_row_is_Some (i : string) (rows : list Row) :
  bool_decide (is_Some (find_row i rows)) = false ↔ filter (has_id i) rows = [].
Proof.
  rewrite bool_decide_eq_false, <- find_row_None.
  split; [apply eq_None_not_Some | intros -> [? ?]; discriminate].
Qed.

Lemma find_row_snoc (i : string) (rows : list Row) (r : Row) :
  filter (has_id i) rows = [] → r !! "id" = Some i →
  filter (has_id i) (rows ++ [r]) = [r].
Proof.
  intros Hnone Hid. rewrite filter_app, Hnone. simpl.
  by rewrite filter_cons_True.
Qed.

Lemma filter_has_id_removed (i : string) (rows : list Row) :
  filter (has_id i) (filter (λ r', ¬ has_id i r') rows) = [].
Proof.
  induction rows as [|r rows IH]; [done|].
  destruct (decide (has_id i r)) as [Hr|Hr].
  - rewrite (filter_cons_False (λ r', ¬ has_id i r')); [done|]. by intros ?.
  - rewrite (filter_cons_True (λ r', ¬ has_id i r')) by done.
    by rewrite filter_cons_False.
Qed.

Lemma filter_has_id_other (i j : string) (rows : list Row) : i ≠ j →
  filter (has_id i) (filter (λ r', ¬ has_id j r') rows) = filter (has_id i) rows.
Proof.
  intros Hij. induction rows as [|r rows IH]; [done|].
  destruct (decide (has_id j r)) as [Hr|Hr].
  - rewrite (filter_cons_False (λ r', ¬ has_id j r')) by (by intros ?).
    rewrite (filter_cons_False (has_id i)); [done|].
    unfold has_id in *. congruence.
  - rewrite (filter_cons_True (λ r', ¬ has_id j r')) by done.
    rewrite !filter_cons. by rewrite IH.
Qed.

(** ** What the client's operations do to the store *)

Lemma table_set_table (k k' : EntityKind) (rows : list Row) (s : Store) :
  table k' (set_table k rows s) = if decide (k = k') then rows else table k' s.
Proof. by destruct k, k'. Qed.

Lemma table_bump (k : EntityKind) (s : Store) : table k (bump s) = table k s.
Proof. by destruct k. Qed.

Lemma nextId_set_table (k : EntityKind) (rows : list Row) (s : Store) :
  nextId (set_table k rows s) = nextId s.
Proof. by destruct k. Qed.

Lemma insert_inr (k : EntityKind) (data : Row) (s s' : Store) (r : Row) :
  insert k data s = (s', inr r) →
  r = <["id" := uuid (nextId s)]> data
  ∧ filter (has_id (uuid (nextId s))) (table k s) = []
  ∧ s' = set_table k (table k s ++ [r]) (bump s).
Proof.
  unfold insert. intros H.
  destruct (negb (has_required k data)); [simplify_eq|].
  destruct (negb (foreign_keys_ok k data s)); [simplify_eq|].
  destruct (bool_decide (is_Some (find_row _ _))) eqn:Hpk; simplify_eq.
  by apply find_row_is_Some in Hpk.
Qed.

Lemma insert_inl (k k' : EntityKind) (data : Row) (s s' : Store) (e : Error) :
  insert k data s = (s', inl e) →
  e = ConstraintViolation ∧ table k' s' = table k' s ∧ nextId s ≤ nextId s'.
Proof.
  unfold insert. intros H.
  destruct (negb (has_required k data)); [by simplify_eq|].
  destruct (negb (foreign_keys_ok k data s)); [by simplify_eq|].
  destruct (bool_decide (is_Some (find_row _ _))); simplify_eq.
  rewrite table_bump. simpl. auto with lia.
Qed.

Lemma dial_store (w : World) : store (snd (dial w)) = store w.
Proof. unfold dial. by destruct (outages w). Qed.

Lemma dial_trace (w : World) : trace (snd (dial w)) = trace w.
Proof. unfold dial. by destruct (outages w). Qed.

(** A [create] that is fulfilled: the row is the payload with the store's
    next identifier, no row of the table had that identifier, and the row
    is appended to its table; the call is logged with its reply. *)
Lemma create_Ok (k : EntityKind) (data : Row) (w w1 : World) (r : Row) :
  create k data w = (w1, Ok r) →
  r = <["id" := uuid (nextId (store w))]> data
  ∧ filter (has_id (uuid (nextId (store w)))) (table k (store w)) = []
  ∧ store w1 = set_table k (table k (store w) ++ [r]) (bump (store w))
  ∧ trace w1 = trace w ++ [EvCreate k data (inr r)].
Proof.
  unfold create. intros H.
  pose proof (dial_store w) as Hs. pose proof (dial_trace w) as Ht.
  destruct (dial w) as [up w0]. simpl in *.
  destruct up.
  - destruct (insert k data (store w0)) as [s [e|r']] eqn:Hins; simplify_eq/=.
    apply insert_inr in Hins as (-> & Hfresh & ->).
    rewrite Hs in *. rewrite Ht. done.
  - simplify_eq/=.
Qed.

(** A [create] that is rejected leaves every table as it was. *)
Lemma create_Err (k : EntityKind) (data : Row) (w w1 : World) (e : Error) :
  create k data w = (w1, Err e) →
  (∀ k', table k' (store w1) = table k' (store w))
  ∧ nextId (store w) ≤ nextId (store w1)
  ∧ trace w1 = trace w ++ [EvCreate k data (inl e)].
Proof.
  unfold create. intros H.
  pose proof (dial_store w) as Hs. pose proof (dial_trace w) as Ht.
  destruct (dial w) as [up w0]. simpl in *.
  destruct up.
  - destruct (insert k data (store w0)) as [s [e'|r']] eqn:Hins; simplify_eq/=.
    rewrite Ht, <- Hs. split_and!; [|by eapply (insert_inl k k)|done].
    intros k'. by eapply insert_inl.
  - simplify_eq/=. by rewrite Hs, Ht.
Qed.

Lemma create_Err_kind (k : EntityKind) (data : Row) (w w1 : World) (e : Error) :
  create k data w = (w1, Err e) →
  e = ConstraintViolation ∨ e = ConnectivityFailure.
Proof.
  unfold create. intros H.
  destruct (dial w) as [[] w0]; [|simplify_eq/=; auto].
  destruct (insert k data (store w0)) as [s [e'|r']] eqn:Hins; simplify_eq/=.
  left. by eapply (insert_inl k k).
Qed.

Lemma create_not_Exited (k : EntityKind) (data : Row) (w w1 : World) (c : nat) :
  create k data w ≠ (w1, Exited c).
Proof.
  unfold create. destruct (dial w) as [[] w0];
    [destruct (insert k data (store w0)) as [s [e|r]]|]; simpl; congruence.
Qed.

Lemma findUnique_inv (k : EntityKind) (i : option string) (w w1 : World)
    (res : Result (option Row)) :
  findUnique k i w = (w1, res) →
  store w1 = store w
  ∧ trace w1 = trace w ++ [EvFindUnique k i]
  ∧ (res = Err ConnectivityFailure ∧ fst (dial w) = false
     ∨ fst (dial w) = true
       ∧ res = match i with
               | Some i' => Ok (find_row i' (table k (store w)))
               | None => Err QueryError
               end).
Proof.
  unfold findUnique. intros H.
  pose proof (dial_store w) as Hs. pose proof (dial_trace w) as Ht.
  destruct (dial w) as [up w0]. simpl in *.
  destruct up; [destruct i|]; simplify_eq/=; rewrite Hs, Ht; auto.
Qed.

Lemma delete_Ok (k : EntityKind) (i : option string) (w w1 : World) (d : Row) :
  delete k i w = (w1, Ok d) →
  ∃ i', i = Some i'
  ∧ find_row i' (table k (store w)) = Some d
  ∧ store w1 = set_table k (filter (λ r', ¬ has_id i' r') (table k (store w))) (store w)
  ∧ trace w1 = trace w ++ [EvDelete k i].
Proof.
  unfold delete. intros H.
  pose proof (dial_store w) as Hs. pose proof (dial_trace w) as Ht.
  destruct (dial w) as [up w0]. simpl in *.
  destruct up; [destruct i as [i'|]|]; simplify_eq/=.
  unfold remove in H. simpl in H. rewrite Hs in H.
  destruct (find_row i' (table k (store w))) as [r|] eqn:Hfind; simplify_eq/=.
  exists i'. by rewrite Ht.
Qed.

Lemma delete_Err (k : EntityKind) (i : option string) (w w1 : World) (e : Error) :
  delete k i w = (w1, Err e) →
  store w1 = store w ∧ trace w1 = trace w ++ [EvDelete k i].
Proof.
  unfold delete. intros H.
  pose proof (dial_store w) as Hs. pose proof (dial_trace w) as Ht.
  destruct (dial w) as [up w0]. simpl in *.
  destruct up; [destruct i as [i'|]|]; simplify_eq/=; rewrite ?Hs, ?Ht; auto.
  unfold remove in H. rewrite Hs in H.
  destruct (find_row i' (table k (store w))) as [r|] eqn:Hfind; simplify_eq/=.
  by rewrite Ht.
Qed.

(** The identifier of a created row and the rows of its table that carry
    it.  Shared by the round-trip, uniqueness and deletion results. *)
Lemma create_Ok_id (k : EntityKind) (data : Row) (w w1 : World) (r : Row) :
  create k data w = (w1, Ok r) →
  r !! "id" = Some (uuid (nextId (store w)))
  ∧ table k (store w1) = table k (store w) ++ [r]
  ∧ filter (has_id (uuid (nextId (store w)))) (table k (store w1)) = [r]
  ∧ nextId (store w1) = S (nextId (store w)).
Proof.
  intros (Hr & Hfresh & Hs & _)%create_Ok.
  assert (r !! "id" = Some (uuid (nextId (store w)))) as Hid.
  { rewrite Hr. apply lookup_insert_eq. }
  rewrite Hs, table_set_table, decide_True by done.
  split_and!; [done|done|by apply find_row_snoc|].
  by rewrite nextId_set_table.
Qed.

Lemma create_findUnique (k : EntityKind) (data : Row) (w w1 w2 : World)
    (r : Row) (found : option Row) :
  create k data w = (w1, Ok r) →
  findUnique k (r !! "id") w1 = (w2, Ok found) →
  found = Some r.
Proof.
  intros (Hid & _ & Hone & _)%create_Ok_id (_ & _ & Hres)%findUnique_inv.
  rewrite Hid in Hres. destruct Hres as [[? _]|[_ Hres]]; [done|].
  simplify_eq. unfold find_row. by rewrite Hone.
Qed.

(** ** The Create scenario *)

(** The test never fails its assertion: it passes, or a client call was
    rejected. *)
Lemma should_create_new_user_verdict (w : World) :
  snd (CrudTest.should_create_new_user w) ≠ Err AssertionFailed.
Proof.
  unfold CrudTest.should_create_new_user, CrudTest.fakerUser, bind, draw, ret.
  simpl.
  match goal with |- context [create ?k ?d ?w0] =>
    destruct (create k d w0) as [w1 [r|e|c]] eqn:Hc end; simpl; [| |done].
  - destruct (findUnique KUser (r !! "id") w1) as [w2 [found|e|c]] eqn:Hf;
      simpl; [| |done].
    + rewrite (create_findUnique _ _ _ _ _ _ _ Hc Hf).
      unfold expect_toEqual. by rewrite decide_True.
    + apply findUnique_inv in Hf as (_ & _ & [[[= ->] _]|[_ Hres]]); [done|].
      destruct (r !! "id"); by simplify_eq.
  - apply create_Err_kind in Hc as [-> | ->]; done.
Qed.

(** C2: for all name and email strings, a user row that was inserted and is
    then fetched by the identifier the insertion returned comes back equal
    to the row the insertion returned, so the [toEqual] assertion of the
    Create test holds. *)
Theorem create_then_find_round_trip (name email : string) (w w1 w2 : World)
    (createdUser : Row) (findCreatedUserInDb : option Row) :
  create KUser (<["name" := name]> (<["email" := email]> ∅)) w
    = (w1, Ok createdUser) →
  findUnique KUser (createdUser !! "id") w1 = (w2, Ok findCreatedUserInDb) →
  findCreatedUserInDb = Some createdUser
  ∧ expect_toEqual (Some createdUser) findCreatedUserInDb w2 = (w2, Ok tt).
Proof.
  intros Hc Hf. pose proof (create_findUnique _ _ _ _ _ _ _ Hc Hf) as ->.
  split; [done|]. unfold expect_toEqual. by rewrite decide_True.
Qed.

Lemma create_then_find_round_trip_witness :
  ∃ w1 w2 createdUser found,
    create KUser (<["name" := "Ada Lovelace"]> (<["email" := "ada@example.com"]> ∅))
      (world0 []) = (w1, Ok createdUser)
    ∧ findUnique KUser (createdUser !! "id") w1 = (w2, Ok found)
    ∧ found = Some createdUser
    ∧ expect_toEqual (Some createdUser) found w2 = (w2, Ok tt).
Proof.
  eexists _, _, _, _. split; [reflexivity|]. split; [reflexivity|].
  eapply (create_then_find_round_trip "Ada Lovelace" "ada@example.com" (world0 []));
    reflexivity.
Defined.

(** ** The Update scenario *)

(** What an insertion returns for a payload of name and email. *)
Lemma create_name_and_email (name email : string) (w w1 : World)
    (createdUser : Row) :
  create KUser (<["email" := email]> (<["name" := name]> ∅)) w
    = (w1, Ok createdUser) →
  createdUser !! "email" = Some email
  ∧ createdUser !! "name" = Some name
  ∧ expect_toBe (createdUser !! "email")
      ((<["email" := email]> (<["name" := name]> ∅) : Row) !! "email") w1
    = (w1, Ok tt)
  ∧ expect_toBe (createdUser !! "name")
      ((<["email" := email]> (<["name" := name]> ∅) : Row) !! "name") w1
    = (w1, Ok tt)
  ∧ users (store w1) = users (store w) ++ [createdUser].
Proof.
  intros Hc.
  pose proof (create_Ok_id _ _ _ _ _ Hc) as (_ & Htab & _).
  apply create_Ok in Hc as (-> & _).
  rewrite lookup_insert_eq.
  rewrite !(lookup_insert_ne _ "id") by done.
  rewrite lookup_insert_eq.
  rewrite !(lookup_insert_ne _ "email") by done.
  rewrite lookup_insert_eq.
  unfold expect_toBe. by rewrite !decide_True.
Qed.

(** The Update test issues one client call, a [create], and nothing else. *)
Lemma should_update_only_creates (w : World) :
  ∃ data reply,
    trace (fst (CrudTest.should_update_user_information w))
      = trace w ++ [EvCreate KUser data reply]
    ∧ snd (CrudTest.should_update_user_information w)
      = match reply with inl e => Err e | inr _ => Ok tt end.
Proof.
  unfold CrudTest.should_update_user_information, CrudTest.userData, bind, draw, ret.
  simpl.
  match goal with |- context [create ?k ?d ?w0] =>
    destruct (create k d w0) as [w1 [r|e|c]] eqn:Hc; exists d end.
  - pose proof (create_name_and_email _ _ _ _ _ Hc) as (_ & _ & H1 & H2 & _).
    apply create_Ok in Hc as (_ & _ & _ & Ht).
    exists (inr r). simpl in *. rewrite H1. simpl. rewrite H2. done.
  - apply create_Err in Hc as (_ & _ & Ht). by exists (inl e).
  - by apply create_not_Exited in Hc.
Qed.

(** C7: a user row inserted with given name and email comes back with
    exactly that name and that email, so both [toBe] assertions of the
    Update test hold; the insertion appends a row and leaves the rows that
    were there untouched.  The Update test itself issues one client call,
    a [create], and nothing else: no record is updated in place. *)
Theorem create_preserves_name_and_email (w : World) :
  (∀ (name email : string) (w1 : World) (createdUser : Row),
     create KUser (<["email" := email]> (<["name" := name]> ∅)) w
       = (w1, Ok createdUser) →
     createdUser !! "email" = Some email
     ∧ createdUser !! "name" = Some name
     ∧ users (store w1) = users (store w) ++ [createdUser])
  ∧ (∃ (userData : Row) (reply : Error + Row),
       trace (fst (CrudTest.should_update_user_information w))
       = trace w ++ [EvCreate KUser userData reply]
       ∧ snd (CrudTest.should_update_user_information w)
         = match reply with inl e => Err e | inr _ => Ok tt end).
Proof.
  split; [|apply should_update_only_creates].
  intros name email w1 createdUser Hc.
  by destruct (create_name_and_email _ _ _ _ _ Hc) as (? & ? & _ & _ & ?).
Qed.

Lemma create_preserves_name_and_email_witness :
  ∃ w1 createdUser,
    create KUser (<["email" := "ada@example.com"]> (<["name" := "Ada Lovelace"]> ∅))
      (world0 []) = (w1, Ok createdUser)
    ∧ createdUser !! "email" = Some "ada@example.com"
    ∧ createdUser !! "name" = Some "Ada Lovelace".
Proof.
  destruct (create_preserves_name_and_email (world0 [])) as [Hfields _].
  eexists _, _. split; [reflexivity|].
  edestruct (Hfields "Ada Lovelace" "ada@example.com") as (He & Hn & _);
    [reflexivity|].
  exact (conj He Hn).
Defined.

(** ** The Delete scenario *)

(** Deleting a row that was just created removes that very row, and leaves
    no row under its identifier. *)
Lemma create_delete_gone (k : EntityKind) (data : Row) (w w1 w2 : World)
    (r d : Row) :
  create k data w = (w1, Ok r) →
  delete k (r !! "id") w1 = (w2, Ok d) →
  d = r
  ∧ r !! "id" = Some (uuid (nextId (store w)))
  ∧ find_row (uuid (nextId (store w))) (table k (store w2)) = None.
Proof.
  intros (Hid & _ & Hone & _)%create_Ok_id Hd.
  rewrite Hid in Hd.
  apply delete_Ok in Hd as (i & [= <-] & Hfound & Hs & _).
  split_and!; [|done|].
  - unfold find_row in Hfound. rewrite Hone in Hfound. by simplify_eq/=.
  - rewrite Hs, table_set_table, decide_True by done.
    apply find_row_None, filter_has_id_removed.
Qed.

(** C3: after a record is inserted and then deleted by its identifier, a
    fetch by that identifier returns the explicit empty result; the only
    other outcome is the connectivity failure of an unreachable store,
    never an error for the missing record, and never a record. *)
Theorem find_after_delete_is_null (k : EntityKind) (data : Row)
    (w w1 w2 w3 : World) (createdUser deleted : Row)
    (foundUser : Result (option Row)) :
  create k data w = (w1, Ok createdUser) →
  delete k (createdUser !! "id") w1 = (w2, Ok deleted) →
  findUnique k (createdUser !! "id") w2 = (w3, foundUser) →
  deleted = createdUser
  ∧ (foundUser = Ok None
     ∨ fst (dial w2) = false ∧ foundUser = Err ConnectivityFailure).
Proof.
  intros Hc Hd Hf.
  destruct (create_delete_gone _ _ _ _ _ _ _ Hc Hd) as (-> & Hid & Hgone).
  split; [done|].
  rewrite Hid in Hf. apply findUnique_inv in Hf as (_ & _ & Hres).
  destruct Hres as [[-> ?]|[_ ->]]; [by right|left]. by rewrite Hgone.
Qed.

Lemma find_after_delete_is_null_witness :
  ∃ w1 w2 w3 createdUser,
    create KUser (<["email" := "ada@example.com"]> (<["name" := "Ada Lovelace"]> ∅))
      (world0 []) = (w1, Ok createdUser)
    ∧ delete KUser (createdUser !! "id") w1 = (w2, Ok createdUser)
    ∧ findUnique KUser (createdUser !! "id") w2 = (w3, Ok None).
Proof.
  eexists _, _, _, _. split; [reflexivity|]. split; [reflexivity|].
  edestruct (find_after_delete_is_null KUser
               (<["email" := "ada@example.com"]> (<["name" := "Ada Lovelace"]> ∅))
               (world0 [])) as [_ [H|[H _]]]; [reflexivity..| |].
  - rewrite <- H. reflexivity.
  - discriminate H.
Defined.

(** The Delete test never fails its assertion. *)
Lemma should_delete_a_specific_user_verdict (w : World) :
  snd (CrudTest.should_delete_a_specific_user w) ≠ Err AssertionFailed.
Proof.
  unfold CrudTest.should_delete_a_specific_user, CrudTest.userData, bind, draw, ret.
  simpl.
  match goal with |- context [create ?k ?d ?w0] =>
    destruct (create k d w0) as [w1 [r|e|c]] eqn:Hc end; simpl; [| |done].
  - destruct (delete KUser (r !! "id") w1) as [w2 [d|e|c]] eqn:Hd; simpl; [| |done].
    + destruct (create_delete_gone _ _ _ _ _ _ _ Hc Hd) as (_ & Hid & Hgone).
      destruct (findUnique KUser (r !! "id") w2) as [w3 res] eqn:Hf.
      rewrite Hid in Hf. apply findUnique_inv in Hf as (_ & _ & Hres).
      destruct Hres as [[-> _]|[_ ->]]; [done|]. by rewrite Hgone.
    + pose proof (create_Ok_id _ _ _ _ _ Hc) as (Hid & _ & Hone & _).
      rewrite Hid in Hd. unfold delete in Hd.
      pose proof (dial_store w1) as Hs.
      destruct (dial w1) as [[] w0]; simplify_eq/=; [|done].
      unfold remove in Hd. simpl in Hd. rewrite Hs in Hd.
      unfold find_row in Hd. rewrite Hone in Hd. by simplify_eq/=.
  - apply create_Err_kind in Hc as [-> | ->]; done.
Qed.

(** ** Identifiers *)

Lemma filter_overwrite_same (i : string) (r : Row) (rows : list Row) :
  has_id i r →
  filter (has_id i) ((λ r0, if decide (has_id i r0) then r else r0) <$> rows)
  = (λ _, r) <$> filter (has_id i) rows.
Proof.
  intros Hr. induction rows as [|r0 rows IH]; [done|].
  rewrite fmap_cons. destruct (decide (has_id i r0)) as [H0|H0].
  - rewrite !filter_cons_True by done. by rewrite fmap_cons, IH.
  - by rewrite !filter_cons_False.
Qed.

Lemma filter_overwrite_other (i j : string) (r : Row) (rows : list Row) :
  i ≠ j → has_id j r →
  filter (has_id i) ((λ r0, if decide (has_id j r0) then r else r0) <$> rows)
  = filter (has_id i) rows.
Proof.
  intros Hij Hr. induction rows as [|r0 rows IH]; [done|].
  assert (¬ has_id i r) as Hir by (unfold has_id in *; congruence).
  rewrite fmap_cons. destruct (decide (has_id j r0)) as [H0|H0].
  - assert (¬ has_id i r0) by (unfold has_id in *; congruence).
    by rewrite !filter_cons_False.
  - rewrite !filter_cons. by rewrite IH.
Qed.

(** What an [update] does to the store: nothing, or the overwrite of the
    rows under the given identifier; the counter of identifiers stays. *)
Lemma update_store (k : EntityKind) (i : option string) (data : Row) (w : World) :
  store (fst (update k i data w)) = store w
  ∨ ∃ i', i = Some i'
          ∧ store (fst (update k i data w))
            = set_table k
                ((λ r0, if decide (has_id i' r0) then <["id" := i']> data else r0)
                   <$> table k (store w))
                (store w).
Proof.
  unfold update. pose proof (dial_store w) as Hs.
  destruct (dial w) as [[] w0]; simpl in *; [|by left].
  destruct i as [i'|]; [|by left]. simpl.
  unfold overwrite. rewrite Hs.
  destruct (find_row i' (table k (store w))); [|by left].
  destruct (negb (has_required k data)); [by left|].
  destruct (negb (foreign_keys_ok k data (store w))); [by left|].
  right. by exists i'.
Qed.

Section identifier_of_a_created_row.
Variables (k : EntityKind) (n : nat).

Lemma create_carriers (k' : EntityKind) (data : Row) (w : World) :
  n < nextId (store w) →
  n < nextId (store (fst (create k' data w)))
  ∧ carriers k (uuid n) (fst (create k' data w)) = carriers k (uuid n) w.
Proof.
  intros Hn. unfold carriers.
  destruct (create k' data w) as [w1 [r'|e|c]] eqn:Hc; simpl.
  - pose proof (create_Ok_id _ _ _ _ _ Hc) as (Hid & Htab & _ & Hnext).
    apply create_Ok in Hc as (_ & _ & Hs & _).
    split; [lia|].
    destruct (decide (k' = k)) as [->|Hk].
    + rewrite Htab, filter_app, (filter_cons_False _ r'), filter_nil, app_nil_r;
        [done|].
      unfold has_id. rewrite Hid. intros Heq.
      apply (inj Some), uuid_inj in Heq. lia.
    + by rewrite Hs, table_set_table, decide_False, table_bump.
  - apply create_Err in Hc as (Htab & Hnext & _).
    split; [lia|]. by rewrite Htab.
  - by apply create_not_Exited in Hc.
Qed.

Lemma delete_carriers (k' : EntityKind) (j : option string) (w : World) :
  n < nextId (store w) →
  n < nextId (store (fst (delete k' j w)))
  ∧ (carriers k (uuid n) (fst (delete k' j w)) = carriers k (uuid n) w
     ∨ is_delete_of k (uuid n) (CallDelete k' j) = true
       ∧ carriers k (uuid n) (fst (delete k' j w)) = []).
Proof.
  intros Hn. unfold carriers.
  destruct (delete k' j w) as [w1 [d|e|c]] eqn:Hd; simpl.
  - apply delete_Ok in Hd as (j' & -> & _ & Hs & _).
    rewrite Hs. split; [by rewrite nextId_set_table|].
    rewrite table_set_table. case_decide as Hk; [subst k'|by left].
    destruct (decide (uuid n = j')) as [<-|Hne].
    + right. split; [by apply bool_decide_eq_true|apply filter_has_id_removed].
    + left. by rewrite filter_has_id_other.
  - apply delete_Err in Hd as [Hs _]. rewrite Hs. split; [done|by left].
  - unfold delete in Hd.
    destruct (dial w) as [[] w0]; [destruct j as [j'|]|]; simplify_eq/=.
    by destruct (remove k' j' (store w0)) as [s [e|d]].
Qed.

Lemma update_carriers (k' : EntityKind) (j : option string) (data : Row)
    (w : World) :
  n < nextId (store w) →
  n < nextId (store (fst (update k' j data w)))
  ∧ (carriers k (uuid n) (fst (update k' j data w)) = carriers k (uuid n) w
     ∨ is_update_of k (uuid n) (CallUpdate k' j data) = true
       ∧ length (carriers k (uuid n) (fst (update k' j data w)))
         = length (carriers k (uuid n) w)).
Proof.
  intros Hn. unfold carriers.
  destruct (update_store k' j data w) as [-> | (j' & -> & ->)]; [by auto|].
  rewrite nextId_set_table, table_set_table. split; [done|].
  case_decide as Hk; [subst k'|by left].
  assert (has_id j' (<["id" := j']> data)) as Hnew by apply lookup_insert_eq.
  destruct (decide (uuid n = j')) as [<-|Hne].
  - right. split; [by apply bool_decide_eq_true|].
    by rewrite filter_overwrite_same, length_fmap.
  - left. by apply filter_overwrite_other.
Qed.

(** One call: the rows under the identifier stay as they are, unless the
    call deletes the record, or overwrites it, which keeps their number. *)
Lemma perform_carriers (c : Call) (w : World) :
  n < nextId (store w) →
  n < nextId (store (perform c w))
  ∧ (carriers k (uuid n) (perform c w) = carriers k (uuid n) w
     ∨ is_delete_of k (uuid n) c = true ∧ carriers k (uuid n) (perform c w) = []
     ∨ is_update_of k (uuid n) c = true
       ∧ length (carriers k (uuid n) (perform c w))
         = length (carriers k (uuid n) w)).
Proof.
  intros Hn. destruct c as [k' data|k' j|k'|k' j|k' j data]; simpl.
  - destruct (create_carriers k' data w Hn) as [? ?]. auto.
  - destruct (findUnique k' j w) as [w1 res] eqn:Hf.
    apply findUnique_inv in Hf as (Hs & _). unfold carriers. simpl.
    rewrite Hs. auto.
  - unfold findMany, carriers. pose proof (dial_store w) as Hs.
    destruct (dial w) as [[] w0]; simpl in *; rewrite Hs; auto.
  - destruct (delete_carriers k' j w Hn) as [? [?|[? ?]]]; auto.
  - destruct (update_carriers k' j data w Hn) as [? [?|[? ?]]]; auto.
Qed.

(** Calls never bring a second row under the identifier. *)
Lemma perform_all_at_most_one (cs : list Call) (w : World) :
  n < nextId (store w) →
  length (carriers k (uuid n) w) ≤ 1 →
  length (carriers k (uuid n) (perform_all cs w)) ≤ 1.
Proof.
  revert w. induction cs as [|c cs IH]; intros w Hn Hone; [done|].
  simpl. destruct (perform_carriers c w Hn) as (Hn' & [Heq|[[_ Heq]|[_ Heq]]]);
    apply IH; try done; rewrite Heq; simpl; lia.
Qed.

(** Calls that do not delete the record keep the number of its rows. *)
Lemma perform_all_no_delete (cs : list Call) (w : World) :
  n < nextId (store w) →
  Forall (λ c, is_delete_of k (uuid n) c = false) cs →
  length (carriers k (uuid n) (perform_all cs w))
  = length (carriers k (uuid n) w).
Proof.
  revert w. induction cs as [|c cs IH]; intros w Hn Hcs; [done|].
  apply Forall_cons in Hcs as [Hc Hcs]. simpl.
  destruct (perform_carriers c w Hn) as (Hn' & [Heq|[[Hdel _]|[_ Heq]]]);
    [|congruence|]; rewrite (IH _ Hn' Hcs); by rewrite Heq.
Qed.

(** Calls that do not overwrite the record leave its rows, or none. *)
Lemma perform_all_no_update (cs : list Call) (w : World) :
  n < nextId (store w) →
  Forall (λ c, is_update_of k (uuid n) c = false) cs →
  carriers k (uuid n) (perform_all cs w) = carriers k (uuid n) w
  ∨ carriers k (uuid n) (perform_all cs w) = [].
Proof.
  revert w. induction cs as [|c cs IH]; intros w Hn Hcs; [by left|].
  apply Forall_cons in Hcs as [Hc Hcs]. simpl.
  destruct (perform_carriers c w Hn) as (Hn' & [Heq|[[_ Heq]|[Hupd _]]]);
    [| |congruence]; destruct (IH _ Hn' Hcs) as [IH'|IH']; auto.
  - left. by rewrite IH'.
  - right. by rewrite IH'.
Qed.

(** Calls that neither delete nor overwrite the record leave its rows. *)
Lemma perform_all_untouched (cs : list Call) (w : World) :
  n < nextId (store w) →
  Forall (λ c, is_delete_of k (uuid n) c = false
               ∧ is_update_of k (uuid n) c = false) cs →
  carriers k (uuid n) (perform_all cs w) = carriers k (uuid n) w.
Proof.
  revert w. induction cs as [|c cs IH]; intros w Hn Hcs; [done|].
  apply Forall_cons in Hcs as [[Hdel Hupd] Hcs]. simpl.
  destruct (perform_carriers c w Hn) as (Hn' & [Heq|[[? _]|[? _]]]);
    [|congruence..]. by rewrite (IH _ Hn' Hcs).
Qed.

End identifier_of_a_created_row.

(** C8: a fulfilled insertion of any kind returns a row whose identifier is
    non-empty, is the one the store assigned at creation, was carried by no
    row of that kind before and is carried by this row alone afterwards.
    Whatever calls follow (insertions, reads, deletions, overwrites), never
    more than one row of that kind carries this identifier; as long as no
    call deletes the record, exactly one row carries it, so the record is
    never re-keyed; as long as no call overwrites the record, that row is
    the created row itself, or gone once deleted; and as long as no call
    deletes or overwrites it, it is the created row itself. *)
Theorem created_id_nonempty_unique_stable (k : EntityKind) (data : Row)
    (w w1 : World) (r : Row) :
  create k data w = (w1, Ok r) →
  ∃ i : string,
    r !! "id" = Some i
    ∧ i ≠ ""
    ∧ i = uuid (nextId (store w))
    ∧ filter (has_id i) (table k (store w)) = []
    ∧ filter (has_id i) (table k (store w1)) = [r]
    ∧ ∀ calls : list Call,
        length (filter (has_id i) (table k (store (perform_all calls w1)))) ≤ 1
        ∧ (Forall (λ c, is_delete_of k i c = false) calls →
           ∃ r', filter (has_id i) (table k (store (perform_all calls w1))) = [r'])
        ∧ (Forall (λ c, is_update_of k i c = false) calls →
           filter (has_id i) (table k (store (perform_all calls w1))) = [r]
           ∨ filter (has_id i) (table k (store (perform_all calls w1))) = [])
        ∧ (Forall (λ c, is_delete_of k i c = false
                        ∧ is_update_of k i c = false) calls →
           filter (has_id i) (table k (store (perform_all calls w1))) = [r]).
Proof.
  intros Hc. exists (uuid (nextId (store w))).
  pose proof (create_Ok_id _ _ _ _ _ Hc) as (Hid & _ & Hone & Hnext).
  apply create_Ok in Hc as (_ & Hfresh & _).
  split_and!; [done|apply uuid_nonempty|done|done|done|].
  assert (nextId (store w) < nextId (store w1)) as Hn by lia.
  fold (carriers k (uuid (nextId (store w))) w1) in Hone.
  intros calls.
  fold (carriers k (uuid (nextId (store w))) (perform_all calls w1)).
  split_and!.
  - apply perform_all_at_most_one; [done|]. by rewrite Hone.
  - intros Hcs.
    pose proof (perform_all_no_delete k _ calls w1 Hn Hcs) as Hlen.
    rewrite Hone in Hlen. simpl in Hlen.
    destruct (carriers k _ (perform_all calls w1)) as [|r' [|? ?]];
      simplify_eq/=. by exists r'.
  - intros Hcs.
    destruct (perform_all_no_update k _ calls w1 Hn Hcs) as [-> | ->]; auto.
  - intros Hcs. by rewrite (perform_all_untouched k _ calls w1 Hn Hcs).
Qed.

Lemma created_id_nonempty_unique_stable_witness :
  ∃ w1 r i,
    create KCategory (<["name" := "lorem"]> ∅) (world0 []) = (w1, Ok r)
    ∧ r !! "id" = Some i ∧ i ≠ ""
    ∧ filter (has_id i) (table KCategory (store w1)) = [r]
    ∧ ∃ r', filter (has_id i)
              (table KCategory
                 (store (perform_all
                           [CallUpdate KCategory (Some "id-0") (<["name" := "ipsum"]> ∅);
                            CallCreate KCategory (<["name" := "dolor"]> ∅)] w1)))
            = [r'].
Proof.
  edestruct (created_id_nonempty_unique_stable KCategory (<["name" := "lorem"]> ∅)
               (world0 [])) as (i & Hid & Hne & _ & _ & Hone & Hcalls); [reflexivity|].
  eexists _, _, i. split; [reflexivity|].
  split_and!; [exact Hid|exact Hne|exact Hone|].
  apply Hcalls. repeat constructor.
Defined.

(** ** The Seeder *)

Lemma news_app (w w' : World) (evs : list Event) :
  trace w' = trace w ++ evs → news w w' = evs.
Proof. unfold news. intros ->. apply drop_app_length. Qed.

Lemma attempts_successes (evs : list Event) :
  Forall is_success evs → attempts evs = evs.
Proof.
  unfold attempts. induction 1 as [|ev evs Hev _ IH]; [done|].
  rewrite filter_cons_True, IH; [done|]. by destruct ev as [? ? []| | | | | | |].
Qed.

(** One round of the loop: one insertion, fulfilled or rejected. *)
Lemma round_inv (w : World) :
  ∃ data reply,
    trace (fst (Seed.round w)) = trace w ++ [EvCreate KUser data reply]
    ∧ data !! "id" = None
    ∧ match reply with
      | inr r => snd (Seed.round w) = Ok tt
                 ∧ users (store (fst (Seed.round w))) = users (store w) ++ [r]
      | inl e => snd (Seed.round w) = Err e
                 ∧ users (store (fst (Seed.round w))) = users (store w)
      end.
Proof.
  unfold Seed.round, Seed.fakerUser, bind, draw, ret. simpl.
  match goal with |- context [create ?k ?d ?w0] =>
    destruct (create k d w0) as [w1 [r|e|c]] eqn:Hc; exists d end.
  - pose proof (create_Ok_id _ _ _ _ _ Hc) as (_ & Htab & _).
    apply create_Ok in Hc as (_ & _ & _ & Ht). by exists (inr r).
  - apply create_Err in Hc as (Htab & _ & Ht). exists (inl e).
    split_and!; [done|done|done|apply (Htab KUser)].
  - by apply create_not_Exited in Hc.
Qed.

(** The loop: some rounds insert a row each, and either all [n] rounds do,
    or the round after them is rejected and ends the loop. *)
Lemma for_loop_round_inv (n : nat) (w : World) :
  ∃ (good : list Event) (rows : list Row),
    users (store (fst (for_loop n Seed.round w))) = users (store w) ++ rows
    ∧ Forall is_success good
    ∧ length good = length rows
    ∧ (snd (for_loop n Seed.round w) = Ok tt
       ∧ length rows = n
       ∧ trace (fst (for_loop n Seed.round w)) = trace w ++ good
       ∨ ∃ data e,
           snd (for_loop n Seed.round w) = Err e
           ∧ length rows < n
           ∧ trace (fst (for_loop n Seed.round w))
             = trace w ++ good ++ [EvCreate KUser data (inl e)]).
Proof.
  revert w. induction n as [|n IH]; intros w.
  { exists [], []. simpl. rewrite !app_nil_r. split_and!; try done. by left. }
  simpl.
  destruct (round_inv w) as (data & reply & Ht & _ & Hreply).
  destruct (Seed.round w) as [w1 res] eqn:Hround. simpl in *.
  destruct reply as [e|r]; destruct Hreply as [-> Hu].
  - rewrite (bind_Err _ _ _ _ _ Hround). simpl.
    exists [], []. simpl. rewrite Hu, app_nil_r. split_and!; try done.
    right. exists data, e. split_and!; [done|lia|done].
  - rewrite (bind_Ok _ _ _ _ _ Hround).
    destruct (IH w1) as (good & rows & Hu' & Hgood & Hlen & Hcases).
    exists (EvCreate KUser data (inr r) :: good), (r :: rows).
    rewrite Hu', Hu, <- app_assoc. simpl.
    split_and!; [done|by constructor|by rewrite Hlen|].
    destruct Hcases as [(-> & <- & ->)|(data' & e & -> & Hlt & ->)].
    + left. by rewrite Ht, <- app_assoc.
    + right. exists data', e. split_and!; [done|lia|].
      by rewrite Ht, <- app_assoc.
Qed.

(** [main] is always fulfilled: a rejected insertion is logged and ends
    the loop. *)
Lemma main_inv (w : World) :
  ∃ (good : list Event) (rows : list Row),
    snd (Seed.main w) = Ok tt
    ∧ users (store (fst (Seed.main w))) = users (store w) ++ rows
    ∧ Forall is_success good
    ∧ length good = length rows
    ∧ (length rows = Seed.fakerRounds
       ∧ trace (fst (Seed.main w)) = trace w ++ good
       ∨ ∃ data e,
           length rows < Seed.fakerRounds
           ∧ trace (fst (Seed.main w))
             = trace w ++ good ++ [EvCreate KUser data (inl e); EvConsoleLog e]).
Proof.
  unfold Seed.main, try_catch.
  destruct (for_loop_round_inv Seed.fakerRounds w)
    as (good & rows & Hu & Hgood & Hlen & Hcases).
  destruct (for_loop Seed.fakerRounds Seed.round w) as [w1 res]. simpl in *.
  exists good, rows.
  destruct Hcases as [(-> & Hn & Ht)|(data & e & -> & Hlt & Ht)]; simpl.
  - split_and!; try done. left. done.
  - split_and!; try done. right. exists data, e. split; [done|].
    rewrite Ht, <- !app_assoc. done.
Qed.

Lemma is_success_not_failure (evs : list Event) (n : nat) (ev : Event) :
  Forall is_success evs → evs !! n = Some ev → is_failure ev = true → False.
Proof.
  intros Hall Hn Hfail.
  eapply Forall_lookup_1 in Hall; [|done].
  by destruct ev as [? ? []| | | | | | |].
Qed.

(** C1: every run of [main] is fulfilled.  If none of the insertions it
    attempted was rejected, it attempted ten and appended exactly ten rows
    to the users.  If its (n+1)-th attempt was rejected, exactly [n] rows
    (so at most [n]) were appended, that attempt was the last one, and the
    run ended by logging the error of that attempt. *)
Theorem main_seeds_ten_or_stops (w w' : World) (res : Result unit) :
  Seed.main w = (w', res) →
  res = Ok tt
  ∧ (Forall (λ ev, is_failure ev = false) (attempts (news w w')) →
     length (attempts (news w w')) = 10
     ∧ ∃ rows, users (store w') = users (store w) ++ rows ∧ length rows = 10)
  ∧ (∀ (n : nat) (ev : Event),
       attempts (news w w') !! n = Some ev → is_failure ev = true →
       length (users (store w')) ≤ length (users (store w)) + n
       ∧ (∃ rows, users (store w') = users (store w) ++ rows ∧ length rows = n)
       ∧ length (attempts (news w w')) = S n
       ∧ ∃ data e before,
           ev = EvCreate KUser data (inl e)
           ∧ news w w' = before ++ [ev; EvConsoleLog e]).
Proof.
  intros Hmain.
  destruct (main_inv w) as (good & rows & Hres & Hu & Hgood & Hlen & Hcases).
  rewrite Hmain in *. simpl in *.
  destruct Hcases as [[Hn Ht]|(data & e & Hlt & Ht)];
    apply news_app in Ht; rewrite Ht.
  - rewrite attempts_successes by done.
    split_and!; [done| |].
    + intros _. split; [by rewrite Hlen, Hn|by exists rows].
    + intros n ev Hev Hfail. by destruct (is_success_not_failure good n ev).
  - assert (attempts (good ++ [EvCreate KUser data (inl e); EvConsoleLog e])
            = good ++ [EvCreate KUser data (inl e)]) as ->.
    { unfold attempts. rewrite filter_app. fold (attempts good).
      by rewrite attempts_successes. }
    split_and!; [done| |].
    + intros Hall. apply Forall_app in Hall as [_ Hall].
      apply Forall_inv in Hall. discriminate Hall.
    + intros n ev Hev Hfail.
      apply lookup_app_Some in Hev as [Hev|[Hge Hev]].
      { by destruct (is_success_not_failure good n ev). }
      apply list_lookup_singleton_Some in Hev as [Hn <-].
      assert (n = length rows) as -> by lia.
      split_and!.
      * rewrite Hu, length_app. lia.
      * by exists rows.
      * rewrite length_app. simpl. lia.
      * by exists data, e, good.
Qed.

Lemma main_seeds_ten_or_stops_witness :
  length (users (store (fst (Seed.main (world0 [false; false; true]))))) ≤ 0 + 2
  ∧ length (attempts (news (world0 [false; false; true])
                           (fst (Seed.main (world0 [false; false; true]))))) = 3.
Proof.
  destruct (main_seeds_ten_or_stops (world0 [false; false; true]) _ _
              (surjective_pairing _)) as (_ & _ & Hstop).
  destruct (Hstop 2 (default EvDisconnect
    (attempts (news (world0 [false; false; true])
                    (fst (Seed.main (world0 [false; false; true])))) !! 2)))
    as (Hle & _ & Hlen & _); [vm_compute; reflexivity..|].
  exact (conj Hle Hlen).
Defined.

(** The script: [main], then the [.then] handler; the [.catch] handler
    does not run. *)
Lemma script_inv (w : World) :
  snd (Seed.script w) = Ok tt
  ∧ store (fst (Seed.script w)) = store (fst (Seed.main w))
  ∧ trace (fst (Seed.script w)) = trace (fst (Seed.main w)) ++ [EvDisconnect].
Proof.
  unfold Seed.script, Seed.top_level, try_catch.
  destruct (main_inv w) as (_ & _ & Hres & _).
  destruct (Seed.main w) as [w1 res] eqn:Hmain. simpl in Hres. subst res.
  by rewrite (bind_Ok _ _ _ _ _ Hmain).
Qed.

(** C6: the top-level handlers end the process in a defined way.  When the
    run is fulfilled, the connection is released and the process ends with
    status 0; when the run is rejected with [e], [e] is logged with
    [console.error], the connection is released and the process exits with
    status 1.  Every run of the seed script ends in the first way or the
    second, its last act being the release of the connection. *)
Theorem seeder_terminates_in_a_defined_way (w : World) :
  (∀ (p : M unit) (w1 : World),
     (p w = (w1, Ok tt) →
      snd (Seed.top_level p w) = Ok tt
      ∧ exit_status (snd (Seed.top_level p w)) = 0
      ∧ store (fst (Seed.top_level p w)) = store w1
      ∧ trace (fst (Seed.top_level p w)) = trace w1 ++ [EvDisconnect])
     ∧ (∀ e : Error, p w = (w1, Err e) →
        snd (Seed.top_level p w) = Exited 1
        ∧ exit_status (snd (Seed.top_level p w)) = 1
        ∧ store (fst (Seed.top_level p w)) = store w1
        ∧ trace (fst (Seed.top_level p w))
          = trace w1 ++ [EvConsoleError e; EvDisconnect]))
  ∧ (exit_status (snd (Seed.script w)) = 0
     ∨ exit_status (snd (Seed.script w)) = 1)
  ∧ last (trace (fst (Seed.script w))) = Some EvDisconnect.
Proof.
  split; [|split].
  - intros p w1. split.
    + intros Hp. unfold Seed.top_level, try_catch.
      by rewrite (bind_Ok _ _ _ _ _ Hp).
    + intros e Hp. unfold Seed.top_level, try_catch.
      rewrite (bind_Err _ _ _ _ _ Hp). simpl.
      by rewrite <- app_assoc.
  - left. by destruct (script_inv w) as (-> & _).
  - destruct (script_inv w) as (_ & _ & ->). apply last_snoc.
Qed.

Lemma seeder_terminates_in_a_defined_way_witness :
  exit_status (snd (Seed.top_level Seed.main (world0 [true]))) = 0
  ∧ exit_status (snd (Seed.top_level (throw ConnectivityFailure) (world0 []))) = 1.
Proof.
  split.
  - destruct (seeder_terminates_in_a_defined_way (world0 [true])) as [H _].
    destruct (H Seed.main (fst (Seed.main (world0 [true])))) as [Hok _].
    apply Hok. vm_compute. reflexivity.
  - destruct (seeder_terminates_in_a_defined_way (world0 [])) as [H _].
    destruct (H (throw ConnectivityFailure) (world0 [])) as [_ Herr].
    apply (Herr ConnectivityFailure). reflexivity.
Defined.

(** C9: when an insertion of the loop is rejected, the script still ends
    fulfilled, with status 0: the error is logged by the loop's own
    [catch], [console.error] of the top-level rejection handler is never
    called, and the run ends with the release of the connection. *)
Theorem failed_insertion_exits_zero (w w' : World) (res : Result unit)
    (data : Row) (e : Error) :
  Seed.script w = (w', res) →
  EvCreate KUser data (inl e) ∈ news w w' →
  res = Ok tt
  ∧ exit_status res = 0
  ∧ EvConsoleLog e ∈ news w w'
  ∧ (∀ e' : Error, EvConsoleError e' ∉ news w w')
  ∧ last (news w w') = Some EvDisconnect.
Proof.
  intros Hscript Hin.
  destruct (script_inv w) as (Hres & _ & Ht).
  destruct (main_inv w) as (good & rows & _ & _ & Hgood & _ & Hcases).
  rewrite Hscript in *. simpl in *. subst res.
  assert (∀ ev, ev ∈ good → is_success ev) as Hsucc.
  { by apply Forall_forall. }
  destruct Hcases as [[_ Hm]|(data' & e' & _ & Hm)];
    rewrite Hm, <- !app_assoc in Ht; apply news_app in Ht;
    rewrite Ht in *.
  - apply elem_of_app in Hin as [Hin|Hin].
    + by apply Hsucc in Hin.
    + apply list_elem_of_singleton in Hin. discriminate Hin.
  - simpl in *.
    assert (e' = e) as ->.
    { apply elem_of_app in Hin as [Hin|Hin]; [by apply Hsucc in Hin|].
      rewrite !elem_of_cons, elem_of_nil in Hin.
      destruct Hin as [Hin|[Hin|[Hin|[]]]]; by simplify_eq. }
    split_and!; [done|done| | |].
    + apply elem_of_app. right. rewrite !elem_of_cons. auto.
    + intros e' [Hbad|Hbad]%elem_of_app; [by apply Hsucc in Hbad|].
      rewrite !elem_of_cons, elem_of_nil in Hbad.
      destruct Hbad as [Hbad|[Hbad|[Hbad|[]]]]; discriminate Hbad.
    + by rewrite last_app.
Qed.

Lemma failed_insertion_exits_zero_witness :
  exit_status (snd (Seed.script (world0 [false; true]))) = 0
  ∧ last (news (world0 [false; true]) (fst (Seed.script (world0 [false; true]))))
    = Some EvDisconnect.
Proof.
  destruct (failed_insertion_exits_zero (world0 [false; true]) _ _
    (<["name" := "Ada2"]> (<["email" := "ada3@example.com"]> ∅))
    ConnectivityFailure (surjective_pairing _)) as (_ & H0 & _ & _ & Hlast).
  - vm_compute. right. left.
  - exact (conj H0 Hlast).
Defined.

(** ** The Factory *)

(** The factory is its one insertion: the drawn word, unchecked, is the
    payload, and the outcome of [create] is the factory's outcome. *)
Lemma categoryFactory_is_create (w : World) :
  Factories.categoryFactory w
  = create KCategory (<["name" := lorem_word (faker w) (draws w)]> ∅) (drawn w).
Proof.
  unfold Factories.categoryFactory, bind, draw, ret, property. simpl.
  rewrite lookup_insert_eq. fold (drawn w).
  by destruct (create _ _ (drawn w)) as [w1 [r|e|c]].
Qed.

Lemma categoryFactory_trace (w : World) :
  ∃ reply : Error + Row,
    trace (fst (Factories.categoryFactory w))
    = trace w
      ++ [EvCreate KCategory (<["name" := lorem_word (faker w) (draws w)]> ∅) reply].
Proof.
  rewrite categoryFactory_is_create.
  destruct (create _ _ (drawn w)) as [w1 [r|e|c]] eqn:Hc.
  - apply create_Ok in Hc as (_ & _ & _ & Ht). by exists (inr r).
  - apply create_Err in Hc as (_ & _ & Ht). by exists (inl e).
  - by apply create_not_Exited in Hc.
Qed.

(** C5: the factory has no parameter.  It issues exactly one insertion,
    whose payload is the drawn word as it is.  When the insertion is
    fulfilled the factory returns the row the store returned: it carries
    the identifier the store assigned, differs from the payload, and is
    the row now found in the store under that identifier.  When the
    insertion is rejected the factory is rejected with the same error,
    nothing is inserted and no second insertion is attempted. *)
Theorem categoryFactory_returns_persisted_or_propagates (w : World) :
  ∃ reply : Error + Row,
    trace (fst (Factories.categoryFactory w))
      = trace w
        ++ [EvCreate KCategory (<["name" := lorem_word (faker w) (draws w)]> ∅) reply]
    ∧ snd (Factories.categoryFactory w) = settle reply
    ∧ match reply with
      | inr category =>
          category !! "id" = Some (uuid (nextId (store w)))
          ∧ category !! "name" = Some (lorem_word (faker w) (draws w))
          ∧ category ≠ <["name" := lorem_word (faker w) (draws w)]> ∅
          ∧ categories (store (fst (Factories.categoryFactory w)))
            = categories (store w) ++ [category]
          ∧ find_row (uuid (nextId (store w)))
              (categories (store (fst (Factories.categoryFactory w))))
            = Some category
      | inl e =>
          ∀ k, table k (store (fst (Factories.categoryFactory w)))
               = table k (store w)
      end.
Proof.
  rewrite categoryFactory_is_create.
  destruct (create _ _ (drawn w)) as [w1 [r|e|c]] eqn:Hc.
  - exists (inr r).
    pose proof (create_Ok_id _ _ _ _ _ Hc) as (Hid & Htab & Hone & _).
    apply create_Ok in Hc as (Hr & _ & _ & Ht). simpl in *.
    split_and!; try done.
    + rewrite Hr, lookup_insert_ne by done. apply lookup_insert_eq.
    + intros Heq. rewrite Heq in Hid. by rewrite lookup_insert_ne in Hid.
    + unfold find_row. by rewrite Hone.
  - exists (inl e). apply create_Err in Hc as (Htab & _ & Ht). done.
  - by apply create_not_Exited in Hc.
Qed.

Lemma categoryFactory_returns_persisted_or_propagates_witness :
  ∃ category : Row,
    snd (Factories.categoryFactory (world0 [])) = Ok category
    ∧ category !! "id" = Some "id-0"
    ∧ category !! "name" = Some "lorem0".
Proof.
  destruct (categoryFactory_returns_persisted_or_propagates (world0 []))
    as ([e|category] & _ & Hres & Hrow).
  - vm_compute in Hres. discriminate Hres.
  - exists category. destruct Hrow as (Hid & Hname & _).
    exact (conj Hres (conj Hid Hname)).
Defined.

(** ** The Factory-volume scenario *)

Lemma categoryFactory_Ok (w w1 : World) (r : Row) :
  Factories.categoryFactory w = (w1, Ok r) →
  r !! "id" = Some (uuid (nextId (store w)))
  ∧ filter (has_id (uuid (nextId (store w)))) (categories (store w)) = []
  ∧ categories (store w1) = categories (store w) ++ [r].
Proof.
  rewrite categoryFactory_is_create. intros Hc.
  pose proof (create_Ok_id _ _ _ _ _ Hc) as (Hid & Htab & _).
  apply create_Ok in Hc as (_ & Hfresh & _). done.
Qed.

(** [n] awaited calls that are all fulfilled push [n] rows, which are the
    rows appended to the categories; none of their identifiers was in the
    table before, and no two of them are equal. *)
Lemma generate_Ok (n : nat) (acc : list Row) (w w' : World) (rs : list Row) :
  CrudTest.generate n acc w = (w', Ok rs) →
  ∃ new : list Row,
    rs = acc ++ new
    ∧ length new = n
    ∧ categories (store w') = categories (store w) ++ new
    ∧ Forall (λ r, ∃ i, r !! "id" = Some i ∧ i ≠ ""
                       ∧ filter (has_id i) (categories (store w)) = []) new
    ∧ NoDup ((λ r : Row, r !! "id") <$> new).
Proof.
  revert acc w. induction n as [|n IH]; intros acc w Hgen.
  { simpl in Hgen. unfold ret in Hgen. simplify_eq. exists [].
    rewrite !app_nil_r. split_and!; try done. constructor. }
  simpl in Hgen.
  destruct (Factories.categoryFactory w) as [w1 [r|e|c]] eqn:Hf;
    [|by rewrite (bind_Err _ _ _ _ _ Hf) in Hgen
     |by unfold bind in Hgen; rewrite Hf in Hgen].
  rewrite (bind_Ok _ _ _ _ _ Hf) in Hgen.
  apply IH in Hgen as (new & -> & Hlen & Hcat & Hall & Hnodup).
  apply categoryFactory_Ok in Hf as (Hid & Hfresh & Hcat1).
  exists (r :: new). rewrite <- app_assoc. simpl.
  rewrite Hcat1, <- app_assoc in Hcat.
  assert (Forall (λ r' : Row, ∃ i, r' !! "id" = Some i ∧ i ≠ ""
            ∧ filter (has_id i) (categories (store w)) = []
            ∧ i ≠ uuid (nextId (store w))) new) as Hall'.
  { eapply Forall_impl; [exact Hall|]. intros r' (i & Hi & Hne & Hnone).
    exists i. rewrite Hcat1, filter_app in Hnone.
    apply app_eq_nil in Hnone as [Hold Hr]. split_and!; try done.
    intros ->. by rewrite filter_cons_True in Hr. }
  split_and!; [done|by rewrite Hlen|done| |].
  - constructor.
    + exists (uuid (nextId (store w))). split_and!; [done|apply uuid_nonempty|done].
    + eapply Forall_impl; [exact Hall'|]. intros r' (i & ? & ? & ? & _). by exists i.
  - apply NoDup_cons. split; [|done].
    intros (r' & Heq & Hin)%list_elem_of_fmap.
    rewrite Forall_forall in Hall'. destruct (Hall' r' Hin) as (i & Hi & _ & _ & Hne).
    congruence.
Qed.

(** *** A consistent, reachable store fulfils the insertions *)

Lemma filter_none {A} (P : A → Prop) `{∀ x, Decision (P x)} (l : list A) :
  (∀ x, x ∈ l → ¬ P x) → filter P l = [].
Proof.
  induction l as [|x l IH]; intros Hl; [done|].
  rewrite filter_cons_False by (apply Hl; left).
  apply IH. intros y Hy. apply Hl. by right.
Qed.

Lemma store_wf_fresh (k : EntityKind) (s : Store) :
  store_wf s → filter (has_id (uuid (nextId s))) (table k s) = [].
Proof.
  intros Hwf. apply filter_none. intros r Hr Hid.
  destruct (Hwf k r Hr) as (n & Hn & Hid').
  unfold has_id in Hid. rewrite Hid' in Hid.
  apply (inj Some), uuid_inj in Hid. lia.
Qed.

Lemma dial_always_up (w : World) :
  always_up w → fst (dial w) = true ∧ always_up (snd (dial w)).
Proof.
  unfold always_up, dial. intros Hup.
  destruct (outages w) as [|down rest] eqn:Ho; simpl.
  - by rewrite Ho.
  - apply Forall_cons in Hup as [-> Hrest]. done.
Qed.

Lemma create_succeeds (k : EntityKind) (data : Row) (w : World) :
  store_wf (store w) → always_up w →
  has_required k data = true → foreign_keys_ok k data (store w) = true →
  ∃ w1 r, create k data w = (w1, Ok r)
          ∧ store_wf (store w1) ∧ always_up w1.
Proof.
  intros Hwf Hup Hreq Hfk. unfold create.
  destruct (dial_always_up w Hup) as [Hdial Hup0].
  pose proof (dial_store w) as Hs.
  destruct (dial w) as [up w0]. simpl in *. subst up.
  unfold insert. rewrite Hs, Hreq, Hfk. simpl.
  pose proof (store_wf_fresh k _ Hwf) as Hfresh.
  apply find_row_is_Some in Hfresh. rewrite Hfresh.
  eexists _, _. split; [done|]. simpl. split; [|done].
  intros k' r'. rewrite table_set_table, nextId_set_table. simpl.
  case_decide as Hk.
  - intros [Hin| ->%list_elem_of_singleton]%elem_of_app.
    + destruct (Hwf k r' Hin) as (n & ? & ?).
      exists n. split; [lia|done].
    + exists (nextId (store w)). split; [lia|apply lookup_insert_eq].
  - rewrite table_bump. intros Hin. destruct (Hwf k' r' Hin) as (n & ? & ?).
    exists n. split; [lia|done].
Qed.

Lemma categoryFactory_succeeds (w : World) :
  store_wf (store w) → always_up w →
  ∃ w1 r, Factories.categoryFactory w = (w1, Ok r)
          ∧ store_wf (store w1) ∧ always_up w1.
Proof.
  intros Hwf Hup. rewrite categoryFactory_is_create.
  by apply create_succeeds.
Qed.

Lemma generate_succeeds (n : nat) (acc : list Row) (w : World) :
  store_wf (store w) → always_up w →
  ∃ w' rs, CrudTest.generate n acc w = (w', Ok rs).
Proof.
  revert acc w. induction n as [|n IH]; intros acc w Hwf Hup.
  { by eexists _, _. }
  destruct (categoryFactory_succeeds w Hwf Hup) as (w1 & r & Hf & Hwf1 & Hup1).
  simpl. rewrite (bind_Ok _ _ _ _ _ Hf). by apply IH.
Qed.

(** C4: for every K, K awaited calls of the factory that are all fulfilled
    yield K rows, which are exactly the rows appended to the categories of
    the store, each with a non-empty identifier and no two with the same
    one, so that [toHaveLength(K)] holds of the collection; and on a
    consistent store that stays reachable the K calls are all fulfilled.
    The factory-volume test, with K = 5, never fails its assertion. *)
Theorem factory_K_times_yields_K_distinct (K : nat) (w : World) :
  (∀ (w' : World) (createdCategories : list Row),
     CrudTest.generate K [] w = (w', Ok createdCategories) →
     length createdCategories = K
     ∧ categories (store w') = categories (store w) ++ createdCategories
     ∧ Forall (λ r : Row, ∃ i, r !! "id" = Some i ∧ i ≠ "") createdCategories
     ∧ NoDup ((λ r : Row, r !! "id") <$> createdCategories)
     ∧ expect_toHaveLength createdCategories K w' = (w', Ok tt))
  ∧ (store_wf (store w) → always_up w →
     ∃ w' createdCategories,
       CrudTest.generate K [] w = (w', Ok createdCategories))
  ∧ snd (CrudTest.factory_generates_five_categories w) ≠ Err AssertionFailed.
Proof.
  assert (∀ n (w' : World) (cs : list Row),
     CrudTest.generate n [] w = (w', Ok cs) →
     length cs = n
     ∧ categories (store w') = categories (store w) ++ cs
     ∧ Forall (λ r : Row, ∃ i, r !! "id" = Some i ∧ i ≠ "") cs
     ∧ NoDup ((λ r : Row, r !! "id") <$> cs)
     ∧ expect_toHaveLength cs n w' = (w', Ok tt)) as Hgen.
  { intros n w' cs (new & -> & Hlen & Hcat & Hall & Hnodup)%generate_Ok.
    simpl. split_and!; try done.
    - eapply Forall_impl; [exact Hall|]. intros r (i & ? & ? & _). by exists i.
    - unfold expect_toHaveLength. by rewrite decide_True. }
  split_and!.
  - apply Hgen.
  - apply generate_succeeds.
  - unfold CrudTest.factory_generates_five_categories, bind.
    destruct (CrudTest.generate _ [] w) as [w' [cs|e|c]] eqn:Hg; simpl; [| |done].
    + apply Hgen in Hg as (_ & _ & _ & _ & ->). done.
    + intros [= ->]. clear Hgen. revert Hg.
      generalize CrudTest.numberOfCategoriesToGenerate, (@nil Row).
      intros n. revert w. induction n as [|n IH]; intros w acc; [done|].
      simpl. unfold bind at 1.
      destruct (Factories.categoryFactory w) as [w1 [r|e|c]] eqn:Hf;
        [apply IH| |done].
      rewrite categoryFactory_is_create in Hf.
      apply create_Err_kind in Hf as [-> | ->]; done.
Qed.

Lemma factory_K_times_yields_K_distinct_witness :
  ∃ w' createdCategories,
    CrudTest.generate 5 [] (world0 []) = (w', Ok createdCategories)
    ∧ length createdCategories = 5
    ∧ NoDup ((λ r : Row, r !! "id") <$> createdCategories).
Proof.
  destruct (factory_K_times_yields_K_distinct 5 (world0 [])) as (Hgen & Hlive & _).
  destruct Hlive as (w' & cs & Hrun).
  - intros k r. destruct k; vm_compute; intros Hin; by apply elem_of_nil in Hin.
  - constructor.
  - exists w', cs. destruct (Hgen w' cs Hrun) as (Hlen & _ & _ & Hnodup & _).
    exact (conj Hrun (conj Hlen Hnodup)).
Defined.

(** ** Where identifiers come from *)

Lemma store_assigned_mono (m n : nat) (ev : Event) :
  m ≤ n → store_assigned n ev → store_assigned m ev.
Proof.
  intros Hmn. destruct ev as [k data [e|r]| | | | | | |]; simpl; try done.
  intros [Hd (i & Hi & Hr)]. split; [done|]. exists i. split; [lia|done].
Qed.

Lemma tidy_ret {A} (Q : A → Prop) (a : A) : Q a → tidy Q (ret a).
Proof.
  intros Ha w. simpl. split_and!; [done| |by intros ? [= <-]].
  exists []. by rewrite app_nil_r.
Qed.

Lemma tidy_throw {A} (Q : A → Prop) (e : Error) : tidy Q (throw e).
Proof.
  intros w. simpl. split_and!; [done| |done].
  exists []. by rewrite app_nil_r.
Qed.

Lemma tidy_process_exit {A} (Q : A → Prop) (c : nat) : tidy Q (process_exit c).
Proof.
  intros w. simpl. split_and!; [done| |done].
  exists []. by rewrite app_nil_r.
Qed.

Lemma tidy_bind {A B} (Q : A → Prop) (R : B → Prop) (p : M A) (f : A → M B) :
  tidy Q p → (∀ a, Q a → tidy R (f a)) → tidy R (bind p f).
Proof.
  intros Hp Hf w. destruct (Hp w) as (Hn & (evs & Ht & Hevs) & HQ).
  unfold bind. destruct (p w) as [w1 [a|e|c]]; simpl in *;
    [|split_and!; [done|by exists evs|done]..].
  destruct (Hf a (HQ a eq_refl) w1) as (Hn1 & (evs1 & Ht1 & Hevs1) & HR).
  split_and!; [lia| |done].
  exists (evs ++ evs1). rewrite Ht1, Ht, <- app_assoc. split; [done|].
  apply Forall_app. split; [done|].
  eapply Forall_impl; [exact Hevs1|]. intros ev. by apply store_assigned_mono.
Qed.

Lemma tidy_try_catch {A} (Q : A → Prop) (p : M A) (h : Error → M A) :
  tidy Q p → (∀ e, tidy Q (h e)) → tidy Q (try_catch p h).
Proof.
  intros Hp Hh w. destruct (Hp w) as (Hn & (evs & Ht & Hevs) & HQ).
  unfold try_catch. destruct (p w) as [w1 [a|e|c]]; simpl in *;
    [split_and!; [done|by exists evs|done]|
    |split_and!; [done|by exists evs|done]].
  destruct (Hh e w1) as (Hn1 & (evs1 & Ht1 & Hevs1) & HR).
  split_and!; [lia| |done].
  exists (evs ++ evs1). rewrite Ht1, Ht, <- app_assoc. split; [done|].
  apply Forall_app. split; [done|].
  eapply Forall_impl; [exact Hevs1|]. intros ev. by apply store_assigned_mono.
Qed.

Lemma tidy_for_loop (n : nat) (body : M unit) :
  tidy (λ _, True) body → tidy (λ _, True) (for_loop n body).
Proof.
  intros Hbody. induction n as [|n IH]; simpl.
  - by apply tidy_ret.
  - eapply tidy_bind; [exact Hbody|done].
Qed.

Lemma tidy_draw (gen : Faker → nat → string) : tidy (λ _, True) (draw gen).
Proof.
  intros w. simpl. split_and!; [done| |done].
  exists []. by rewrite app_nil_r.
Qed.

Lemma tidy_create (k : EntityKind) (data : Row) :
  data !! "id" = None → tidy (λ _, True) (create k data).
Proof.
  intros Hd w. destruct (create k data w) as [w1 [r|e|c]] eqn:Hc; simpl.
  - pose proof (create_Ok_id _ _ _ _ _ Hc) as (Hid & _ & _ & Hnext).
    apply create_Ok in Hc as (_ & _ & _ & Ht).
    split_and!; [lia| |done].
    eexists. split; [exact Ht|]. constructor; [|done].
    simpl. split; [done|]. by exists (nextId (store w)).
  - apply create_Err in Hc as (_ & Hnext & Ht).
    split_and!; [done| |done].
    eexists. split; [exact Ht|]. by constructor.
  - by apply create_not_Exited in Hc.
Qed.

Lemma tidy_findUnique (k : EntityKind) (i : option string) :
  tidy (λ _, True) (findUnique k i).
Proof.
  intros w. destruct (findUnique k i w) as [w1 res] eqn:Hf.
  apply findUnique_inv in Hf as (Hs & Ht & _). simpl.
  rewrite Hs. split_and!; [done| |done].
  eexists. split; [exact Ht|]. by constructor.
Qed.

Lemma tidy_findMany (k : EntityKind) : tidy (λ _, True) (findMany k).
Proof.
  intros w. unfold findMany.
  pose proof (dial_store w) as Hs. pose proof (dial_trace w) as Ht.
  destruct (dial w) as [[] w0]; simpl in *; rewrite Hs, Ht;
    (split_and!; [done| |done]); eexists; (split; [done|]); by constructor.
Qed.

Lemma tidy_delete (k : EntityKind) (i : option string) :
  tidy (λ _, True) (delete k i).
Proof.
  intros w. destruct (delete k i w) as [w1 [d|e|c]] eqn:Hd; simpl.
  - apply delete_Ok in Hd as (i' & _ & _ & Hs & Ht).
    rewrite Hs, nextId_set_table. split_and!; [done| |done].
    eexists. split; [exact Ht|]. by constructor.
  - apply delete_Err in Hd as [Hs Ht].
    rewrite Hs. split_and!; [done| |done].
    eexists. split; [exact Ht|]. by constructor.
  - unfold delete in Hd.
    destruct (dial w) as [[] w0]; [destruct i as [i'|]|]; simplify_eq/=.
    by destruct (remove k i' (store w0)) as [s [e|d]].
Qed.

Lemma tidy_log (ev : Event) :
  (∀ n, store_assigned n ev) → tidy (λ _, True) (λ w, (emit ev w, Ok tt)).
Proof.
  intros Hev w. simpl. split_and!; [done| |done].
  exists [ev]. split; [done|]. by constructor.
Qed.

Lemma tidy_disconnect : tidy (λ _, True) disconnect.
Proof. by apply tidy_log. Qed.

Lemma tidy_console_log (e : Error) : tidy (λ _, True) (console_log e).
Proof. by apply tidy_log. Qed.

Lemma tidy_console_error (e : Error) : tidy (λ _, True) (console_error e).
Proof. by apply tidy_log. Qed.

Lemma tidy_expect (p : M unit) :
  (∀ w, p w = (w, Ok tt) ∨ p w = (w, Err AssertionFailed)) →
  tidy (λ _, True) p.
Proof.
  intros Hp w. destruct (Hp w) as [-> | ->]; simpl;
    (split_and!; [done| |done]); exists []; by rewrite app_nil_r.
Qed.

Lemma name_and_email_intro (name email : string) :
  name_and_email (<["name" := name]> (<["email" := email]> ∅)).
Proof.
  split; [|done]. rewrite !dom_insert_L, dom_empty_L. set_solver.
Qed.

Lemma tidy_Seed_fakerUser : tidy name_and_email Seed.fakerUser.
Proof.
  unfold Seed.fakerUser.
  eapply tidy_bind; [apply tidy_draw|]. intros name _.
  eapply tidy_bind; [apply tidy_draw|]. intros email _.
  apply tidy_ret, name_and_email_intro.
Qed.

Lemma tidy_CrudTest_fakerUser : tidy name_and_email CrudTest.fakerUser.
Proof.
  unfold CrudTest.fakerUser.
  eapply tidy_bind; [apply tidy_draw|]. intros name _.
  eapply tidy_bind; [apply tidy_draw|]. intros email _.
  apply tidy_ret, name_and_email_intro.
Qed.

Lemma tidy_CrudTest_userData : tidy name_and_email CrudTest.userData.
Proof.
  unfold CrudTest.userData.
  eapply tidy_bind; [apply tidy_draw|]. intros email _.
  eapply tidy_bind; [apply tidy_draw|]. intros name _.
  apply tidy_ret. rewrite insert_insert_ne by done. apply name_and_email_intro.
Qed.

Lemma tidy_script : tidy (λ _, True) Seed.script.
Proof.
  unfold Seed.script, Seed.top_level, Seed.main, Seed.round.
  apply tidy_try_catch.
  - eapply tidy_bind; [|intros; apply tidy_disconnect].
    apply tidy_try_catch; [|apply tidy_console_log].
    apply tidy_for_loop.
    eapply tidy_bind; [apply tidy_Seed_fakerUser|]. intros data [_ Hd].
    eapply tidy_bind; [by apply tidy_create|]. intros. by apply tidy_ret.
  - intros e. eapply tidy_bind; [apply tidy_console_error|]. intros.
    eapply tidy_bind; [apply tidy_disconnect|]. intros.
    apply tidy_process_exit.
Qed.

Lemma tidy_categoryFactory : tidy (λ _, True) Factories.categoryFactory.
Proof.
  unfold Factories.categoryFactory.
  eapply tidy_bind; [apply tidy_draw|]. intros name _.
  eapply tidy_bind; [|intros; by apply tidy_ret].
  apply tidy_create. by rewrite lookup_insert_eq.
Qed.

Lemma tidy_generate (n : nat) (acc : list Row) :
  tidy (λ _, True) (CrudTest.generate n acc).
Proof.
  revert acc. induction n as [|n IH]; intros acc; simpl.
  - by apply tidy_ret.
  - eapply tidy_bind; [apply tidy_categoryFactory|]. intros. apply IH.
Qed.

Lemma tidy_suite :
  tidy (λ _, True) CrudTest.should_create_new_user
  ∧ tidy (λ _, True) CrudTest.should_get_all_users
  ∧ tidy (λ _, True) CrudTest.should_update_user_information
  ∧ tidy (λ _, True) CrudTest.should_delete_a_specific_user
  ∧ tidy (λ _, True) CrudTest.factory_generates_five_categories.
Proof.
  split_and!.
  - unfold CrudTest.should_create_new_user.
    eapply tidy_bind; [apply tidy_CrudTest_fakerUser|]. intros data [_ Hd].
    eapply tidy_bind; [by apply tidy_create|]. intros r _.
    eapply tidy_bind; [apply tidy_findUnique|]. intros found _.
    apply tidy_expect. intros w. unfold expect_toEqual. case_decide; auto.
  - unfold CrudTest.should_get_all_users.
    eapply tidy_bind; [apply tidy_findMany|]. intros rows _.
    apply tidy_expect. intros w. unfold expect_toBeGreaterThan. case_decide; auto.
  - unfold CrudTest.should_update_user_information.
    eapply tidy_bind; [apply tidy_CrudTest_userData|]. intros data [_ Hd].
    eapply tidy_bind; [by apply tidy_create|]. intros r _.
    eapply tidy_bind; [|intros _ _];
      apply tidy_expect; intros w; unfold expect_toBe; case_decide; auto.
  - unfold CrudTest.should_delete_a_specific_user.
    eapply tidy_bind; [apply tidy_CrudTest_userData|]. intros data [_ Hd].
    eapply tidy_bind; [by apply tidy_create|]. intros r _.
    eapply tidy_bind; [apply tidy_delete|]. intros d _.
    eapply tidy_bind; [apply tidy_findUnique|]. intros found _.
    apply tidy_expect. intros w. destruct found; auto.
  - unfold CrudTest.factory_generates_five_categories.
    eapply tidy_bind; [apply tidy_generate|]. intros cs _.
    apply tidy_expect. intros w. unfold expect_toHaveLength. case_decide; auto.
Qed.

Lemma tidy_news {A} (Q : A → Prop) (p : M A) (w : World) :
  tidy Q p → Forall (store_assigned (nextId (store w))) (news w (fst (p w))).
Proof.
  intros Hp. destruct (Hp w) as (_ & (evs & Ht & Hevs) & _).
  by rewrite (news_app _ _ _ Ht).
Qed.

(** C10: no component supplies an identifier.  The payloads built by the
    Seeder's [fakerUser] and by the suite have the properties [name] and
    [email] and no other, the factory's payload has [name] alone; in every
    run of the seed script, of each test and of the factory, every
    insertion carries a payload without [id], and every row an insertion
    returns carries an identifier handed out by the store during the run. *)
Theorem no_component_supplies_an_identifier (w : World) :
  (∀ d, snd (Seed.fakerUser w) = Ok d → dom d = {["name"; "email"]})
  ∧ (∀ d, snd (CrudTest.fakerUser w) = Ok d → dom d = {["name"; "email"]})
  ∧ (∀ d, snd (CrudTest.userData w) = Ok d → dom d = {["name"; "email"]})
  ∧ (∃ (d : Row) reply,
       news w (fst (Factories.categoryFactory w)) = [EvCreate KCategory d reply]
       ∧ dom d = {["name"]})
  ∧ Forall (store_assigned (nextId (store w))) (news w (fst (Seed.script w)))
  ∧ Forall (store_assigned (nextId (store w)))
      (news w (fst (Factories.categoryFactory w)))
  ∧ Forall (store_assigned (nextId (store w)))
      (news w (fst (CrudTest.should_create_new_user w)))
  ∧ Forall (store_assigned (nextId (store w)))
      (news w (fst (CrudTest.should_get_all_users w)))
  ∧ Forall (store_assigned (nextId (store w)))
      (news w (fst (CrudTest.should_update_user_information w)))
  ∧ Forall (store_assigned (nextId (store w)))
      (news w (fst (CrudTest.should_delete_a_specific_user w)))
  ∧ Forall (store_assigned (nextId (store w)))
      (news w (fst (CrudTest.factory_generates_five_categories w))).
Proof.
  destruct tidy_suite as (Hcreate & Hall & Hupdate & Hdelete & Hfive).
  split_and!.
  - intros d Hd. by apply (tidy_Seed_fakerUser w).
  - intros d Hd. by apply (tidy_CrudTest_fakerUser w).
  - intros d Hd. by apply (tidy_CrudTest_userData w).
  - destruct (categoryFactory_trace w) as (reply & Ht).
    eexists _, reply. split; [by apply news_app|].
    by rewrite dom_insert_L, dom_empty_L, union_empty_r_L.
  - by eapply tidy_news, tidy_script.
  - by eapply tidy_news, tidy_categoryFactory.
  - by eapply tidy_news.
  - by eapply tidy_news.
  - by eapply tidy_news.
  - by eapply tidy_news.
  - by eapply tidy_news.
Qed.

Lemma no_component_supplies_an_identifier_witness :
  dom (<["name" := "Ada0"]> (<["email" := "ada1@example.com"]> ∅) : Row)
    = {["name"; "email"]}
  ∧ Forall (store_assigned 0)
      (news (world0 [false; true]) (fst (Seed.script (world0 [false; true])))).
Proof.
  destruct (no_component_supplies_an_identifier (world0 [false; true]))
    as (Hseed & _ & _ & _ & Hscript & _).
  split.
  - apply Hseed. vm_compute. reflexivity.
  - exact Hscript.
Defined.

(** * Further properties of the code *)

(** ** The Read-all scenario *)

Lemma findMany_inv (k : EntityKind) (w : World) :
  store (fst (findMany k w)) = store w
  ∧ trace (fst (findMany k w)) = trace w ++ [EvFindMany k]
  ∧ snd (findMany k w)
    = if fst (dial w) then Ok (table k (store w)) else Err ConnectivityFailure.
Proof.
  unfold findMany.
  pose proof (dial_store w) as Hs. pose proof (dial_trace w) as Ht.
  destruct (dial w) as [[] w0]; simpl in *; by rewrite Hs, Ht.
Qed.

(** The Read-all test reads and never writes.  On a reachable store it
    passes when there is at least one user and fails its assertion on an
    empty table; on an unreachable store it is rejected with the
    connectivity failure. *)
Theorem get_all_users_verdict (w : World) :
  store (fst (CrudTest.should_get_all_users w)) = store w
  ∧ trace (fst (CrudTest.should_get_all_users w)) = trace w ++ [EvFindMany KUser]
  ∧ snd (CrudTest.should_get_all_users w)
    = if fst (dial w)
      then match users (store w) with
           | [] => Err AssertionFailed
           | _ :: _ => Ok tt
           end
      else Err ConnectivityFailure.
Proof.
  unfold CrudTest.should_get_all_users, bind.
  destruct (findMany_inv KUser w) as (Hs & Ht & Hres).
  destruct (findMany KUser w) as [w1 res]. simpl in *. subst res.
  destruct (fst (dial w)); [|done].
  unfold expect_toBeGreaterThan.
  destruct (users (store w)) as [|u us]; simpl; done.
Qed.

(** ** Relations every step of a program respects *)

Section stable_rules.
Context (R : World → World → Prop) `{!PreOrder R}.

Lemma stable_ret {A} (a : A) : stable R (ret a).
Proof. intros w. simpl. reflexivity. Qed.

Lemma stable_throw {A} (e : Error) : stable R (@throw A e).
Proof. intros w. simpl. reflexivity. Qed.

Lemma stable_process_exit {A} (c : nat) : stable R (@process_exit A c).
Proof. intros w. simpl. reflexivity. Qed.

Lemma stable_still {A} (p : M A) : (∀ w, fst (p w) = w) → stable R p.
Proof. intros Hp w. rewrite Hp. reflexivity. Qed.

Lemma stable_bind {A B} (p : M A) (f : A → M B) :
  stable R p → (∀ a, stable R (f a)) → stable R (bind p f).
Proof.
  intros Hp Hf w. specialize (Hp w). unfold bind.
  destruct (p w) as [w1 [a|e|c]]; simpl in *; [|done..].
  etrans; [exact Hp|apply Hf].
Qed.

Lemma stable_try_catch {A} (p : M A) (h : Error → M A) :
  stable R p → (∀ e, stable R (h e)) → stable R (try_catch p h).
Proof.
  intros Hp Hh w. specialize (Hp w). unfold try_catch.
  destruct (p w) as [w1 [a|e|c]]; simpl in *; [done| |done].
  etrans; [exact Hp|apply Hh].
Qed.

Lemma stable_finally {A} (p : M A) (f : M unit) :
  stable R p → stable R f → stable R (finally_ p f).
Proof.
  intros Hp Hf w. specialize (Hp w). unfold finally_.
  destruct (p w) as [w1 [a|e|c]]; simpl in *; [| |done].
  - etrans; [exact Hp|]. apply (stable_bind f (λ _, ret a)); [done|].
    intros _. apply stable_ret.
  - etrans; [exact Hp|]. apply (stable_bind f (λ _, throw e)); [done|].
    intros _. apply stable_throw.
Qed.

Lemma stable_for_loop (n : nat) (body : M unit) :
  stable R body → stable R (for_loop n body).
Proof.
  intros Hbody. induction n as [|n IH]; simpl.
  - apply stable_ret.
  - by apply stable_bind.
Qed.

Lemma stable_expect_toEqual {A} `{EqDecision A} (x y : A) :
  stable R (expect_toEqual x y).
Proof. apply stable_still. intros w. unfold expect_toEqual. by case_decide. Qed.

Lemma stable_expect_toBe {A} `{EqDecision A} (x y : A) :
  stable R (expect_toBe x y).
Proof. apply stable_still. intros w. unfold expect_toBe. by case_decide. Qed.

Lemma stable_expect_toBeNull {A} (x : option A) : stable R (expect_toBeNull x).
Proof. apply stable_still. intros w. by destruct x. Qed.

Lemma stable_expect_toBeGreaterThan (m n : nat) :
  stable R (expect_toBeGreaterThan m n).
Proof.
  apply stable_still. intros w. unfold expect_toBeGreaterThan. by case_decide.
Qed.

Lemma stable_expect_toHaveLength {A} (l : list A) (n : nat) :
  stable R (expect_toHaveLength l n).
Proof.
  apply stable_still. intros w. unfold expect_toHaveLength. by case_decide.
Qed.

(** The seed script is made of draws, insertions of users, logging and the
    release of the connection. *)
Lemma stable_seed_script :
  (∀ w, R w (drawn w)) →
  (∀ data, stable R (create KUser data)) →
  (∀ e w, R w (emit (EvConsoleLog e) w)) →
  (∀ e w, R w (emit (EvConsoleError e) w)) →
  (∀ w, R w (emit EvDisconnect w)) →
  stable R Seed.script.
Proof.
  intros Hdraw Hcreate Hlog Herr Hdisc.
  assert (∀ gen, stable R (draw gen)) as Hd by (intros gen w; apply Hdraw).
  unfold Seed.script, Seed.top_level, Seed.main, Seed.round, Seed.fakerUser.
  apply stable_try_catch.
  - apply stable_bind; [|intros _ w; apply Hdisc].
    apply stable_try_catch; [|intros e w; apply Hlog].
    apply stable_for_loop.
    apply stable_bind.
    + apply stable_bind; [done|]. intros name.
      apply stable_bind; [done|]. intros email. apply stable_ret.
    + intros data. apply stable_bind; [done|]. intros _. apply stable_ret.
  - intros e. apply stable_bind; [intros w; apply Herr|]. intros _.
    apply stable_bind; [intros w; apply Hdisc|]. intros _.
    apply stable_process_exit.
Qed.

(** The factory and the tests other than the Delete test are made of draws,
    insertions and reads. *)
Lemma stable_factory_and_suite :
  (∀ w, R w (drawn w)) →
  (∀ data, stable R (create KUser data)) →
  (∀ data, stable R (create KCategory data)) →
  (∀ i, stable R (findUnique KUser i)) →
  stable R (findMany KUser) →
  stable R Factories.categoryFactory
  ∧ (∀ n acc, stable R (CrudTest.generate n acc))
  ∧ stable R CrudTest.should_create_new_user
  ∧ stable R CrudTest.should_get_all_users
  ∧ stable R CrudTest.should_update_user_information
  ∧ stable R CrudTest.factory_generates_five_categories.
Proof.
  intros Hdraw Hcreate Hcat Hfind Hmany.
  assert (∀ gen, stable R (draw gen)) as Hd by (intros gen w; apply Hdraw).
  assert (stable R Factories.categoryFactory) as Hfactory.
  { unfold Factories.categoryFactory.
    apply stable_bind; [done|]. intros name.
    apply stable_bind; [done|]. intros c. apply stable_ret. }
  assert (∀ n acc, stable R (CrudTest.generate n acc)) as Hgen.
  { induction n as [|n IH]; intros acc; simpl; [apply stable_ret|].
    apply stable_bind; [done|]. intros c. apply IH. }
  split_and!; [done|done| | | |].
  - unfold CrudTest.should_create_new_user, CrudTest.fakerUser.
    apply stable_bind.
    { apply stable_bind; [done|]. intros name.
      apply stable_bind; [done|]. intros email. apply stable_ret. }
    intros data. apply stable_bind; [done|]. intros r.
    apply stable_bind; [done|]. intros found. apply stable_expect_toEqual.
  - unfold CrudTest.should_get_all_users.
    apply stable_bind; [done|]. intros rows. apply stable_expect_toBeGreaterThan.
  - unfold CrudTest.should_update_user_information, CrudTest.userData.
    apply stable_bind.
    { apply stable_bind; [done|]. intros email.
      apply stable_bind; [done|]. intros name. apply stable_ret. }
    intros data. apply stable_bind; [done|]. intros r.
    apply stable_bind; [apply stable_expect_toBe|]. intros _.
    apply stable_expect_toBe.
  - unfold CrudTest.factory_generates_five_categories.
    apply stable_bind; [done|]. intros cs. apply stable_expect_toHaveLength.
Qed.

(** The Delete test also deletes. *)
Lemma stable_delete_test :
  (∀ w, R w (drawn w)) →
  (∀ data, stable R (create KUser data)) →
  (∀ i, stable R (findUnique KUser i)) →
  (∀ i, stable R (delete KUser i)) →
  stable R CrudTest.should_delete_a_specific_user.
Proof.
  intros Hdraw Hcreate Hfind Hdelete.
  assert (∀ gen, stable R (draw gen)) as Hd by (intros gen w; apply Hdraw).
  unfold CrudTest.should_delete_a_specific_user, CrudTest.userData.
  apply stable_bind.
  { apply stable_bind; [done|]. intros email.
    apply stable_bind; [done|]. intros name. apply stable_ret. }
  intros data. apply stable_bind; [done|]. intros r.
  apply stable_bind; [done|]. intros d.
  apply stable_bind; [done|]. intros found. apply stable_expect_toBeNull.
Qed.

(** The article's seed script. *)
Lemma stable_article_script (gen : Faker → nat → string) :
  (∀ w, R w (drawn w)) →
  (∀ data, stable R (create KUser data)) →
  (∀ e w, R w (emit (EvConsoleError e) w)) →
  (∀ w, R w (emit EvDisconnect w)) →
  stable R (Article.script gen).
Proof.
  intros Hdraw Hcreate Herr Hdisc.
  assert (∀ g, stable R (draw g)) as Hd by (intros g w; apply Hdraw).
  unfold Article.script, Article.main, Article.round.
  apply stable_finally.
  - apply stable_try_catch.
    + apply stable_for_loop.
      apply stable_bind; [done|]. intros name.
      apply stable_bind; [done|]. intros email.
      apply stable_bind; [done|]. intros _. apply stable_ret.
    + intros e. apply stable_bind; [intros w; apply Herr|]. intros _.
      apply stable_process_exit.
  - intros w. apply Hdisc.
Qed.

End stable_rules.


(** ** What the client's calls keep *)

Lemma create_tables (k : EntityKind) (data : Row) (w : World) :
  (∀ k', k' ≠ k → table k' (store (fst (create k data w))) = table k' (store w))
  ∧ (table k (store (fst (create k data w))) = table k (store w)
     ∨ ∃ r, snd (create k data w) = Ok r
            ∧ table k (store (fst (create k data w))) = table k (store w) ++ [r]).
Proof.
  destruct (create k data w) as [w1 [r|e|c]] eqn:Hc; simpl.
  - pose proof (create_Ok_id _ _ _ _ _ Hc) as (_ & Htab & _).
    apply create_Ok in Hc as (_ & _ & Hs & _). split.
    + intros k' Hk. by rewrite Hs, table_set_table, decide_False, table_bump.
    + right. by exists r.
  - apply create_Err in Hc as (Htab & _). split; [intros; apply Htab|by left].
  - by apply create_not_Exited in Hc.
Qed.

Lemma delete_store (k : EntityKind) (i : option string) (w : World) :
  store (fst (delete k i w)) = store w
  ∨ ∃ i' d, i = Some i' ∧ snd (delete k i w) = Ok d
            ∧ store (fst (delete k i w))
              = set_table k (filter (λ r', ¬ has_id i' r') (table k (store w)))
                  (store w).
Proof.
  destruct (delete k i w) as [w1 [d|e|c]] eqn:Hd; simpl.
  - apply delete_Ok in Hd as (i' & -> & _ & Hs & _). right. by exists i', d.
  - apply delete_Err in Hd as [Hs _]. by left.
  - unfold delete in Hd.
    destruct (dial w) as [[] w0]; [destruct i as [i'|]|]; simplify_eq/=.
    by destruct (remove k i' (store w0)) as [s [e|d]].
Qed.

Lemma insert_wf (k : EntityKind) (data : Row) (s : Store) :
  store_wf s → store_wf (fst (insert k data s)).
Proof.
  intros Hwf. unfold insert.
  destruct (negb (has_required k data)); [done|].
  destruct (negb (foreign_keys_ok k data s)); [done|].
  destruct (bool_decide (is_Some (find_row _ _))); simpl.
  - intros k' r. rewrite table_bump. intros Hin.
    destruct (Hwf k' r Hin) as (n & ? & ?). exists n. simpl. split; [lia|done].
  - intros k' r. rewrite table_set_table, nextId_set_table. simpl.
    case_decide as Hk.
    + intros [Hin| ->%list_elem_of_singleton]%elem_of_app.
      * destruct (Hwf k r Hin) as (n & ? & ?). exists n. split; [lia|done].
      * exists (nextId s). split; [lia|apply lookup_insert_eq].
    + rewrite table_bump. intros Hin. destruct (Hwf k' r Hin) as (n & ? & ?).
      exists n. split; [lia|done].
Qed.

Lemma create_wf (k : EntityKind) (data : Row) : stable wf_kept (create k data).
Proof.
  intros w Hwf. unfold create.
  pose proof (dial_store w) as Hs.
  destruct (dial w) as [[] w0]; simpl in *; rewrite Hs.
  - pose proof (insert_wf k data (store w) Hwf) as Hins.
    by destruct (insert k data (store w)) as [s reply].
  - done.
Qed.

Lemma delete_wf (k : EntityKind) (i : option string) : stable wf_kept (delete k i).
Proof.
  intros w Hwf.
  destruct (delete_store k i w) as [-> | (i' & d & _ & _ & ->)]; [done|].
  intros k' r. rewrite table_set_table, nextId_set_table.
  case_decide as Hk; [subst k'|by apply Hwf].
  intros [_ Hin]%list_elem_of_filter. by apply Hwf in Hin.
Qed.

Global Instance wf_kept_preorder : PreOrder wf_kept.
Proof.
  split; [intros w Hwf; exact Hwf|].
  intros w1 w2 w3 H12 H23 Hwf. apply H23, H12, Hwf.
Qed.

Global Instance grows_preorder : PreOrder grows.
Proof.
  split.
  - intros w. unfold grows. done.
  - intros w1 w2 w3 (Hu & Hc & Hp) (Hu' & Hc' & Hp').
    split_and!; [by trans (users (store w2))|by trans (categories (store w2))|].
    congruence.
Qed.

Global Instance seed_frame_preorder : PreOrder seed_frame.
Proof.
  split.
  - intros w. unfold seed_frame. split_and!; try done.
    exists []. by rewrite app_nil_r.
  - intros w1 w2 w3 (Hp & Hc & Hu & evs & Ht & Hevs)
      (Hp' & Hc' & Hu' & evs' & Ht' & Hevs').
    split_and!; [congruence|congruence|by trans (users (store w2))|].
    exists (evs ++ evs'). rewrite Ht', Ht, <- app_assoc. split; [done|].
    by apply Forall_app.
Qed.

Lemma findUnique_store (k : EntityKind) (i : option string) (w : World) :
  store (fst (findUnique k i w)) = store w.
Proof.
  destruct (findUnique k i w) as [w1 res] eqn:Hf.
  by apply findUnique_inv in Hf as (Hs & _).
Qed.

Lemma create_grows (k : EntityKind) (data : Row) :
  k ≠ KPost → stable grows (create k data).
Proof.
  intros Hk w. destruct (create_tables k data w) as [Hother Hk'].
  assert (table k (store w) `prefix_of` table k (store (fst (create k data w))))
    as Hpre.
  { destruct Hk' as [-> | (r & _ & ->)]; [done|by apply prefix_app_r]. }
  destruct k; [|done|].
  - pose proof (Hother KCategory ltac:(done)) as Hc.
    pose proof (Hother KPost ltac:(done)) as Hp.
    simpl in *. unfold grows. by rewrite Hc.
  - pose proof (Hother KUser ltac:(done)) as Hu.
    pose proof (Hother KPost ltac:(done)) as Hp.
    simpl in *. unfold grows. by rewrite Hu.
Qed.

(** ** The seed script only appends users *)

Lemma create_seed_frame (data : Row) : stable seed_frame (create KUser data).
Proof.
  intros w. destruct (create_grows KUser data ltac:(done) w) as (Hu & _ & Hp).
  destruct (create_tables KUser data w) as [Hother _].
  split_and!; [done|by apply (Hother KCategory)|done|].
  destruct (create KUser data w) as [w1 [r|e|c]] eqn:Hc; simpl.
  - apply create_Ok in Hc as (_ & _ & _ & Ht). eexists. split; [exact Ht|].
    by constructor.
  - apply create_Err in Hc as (_ & _ & Ht). eexists. split; [exact Ht|].
    by constructor.
  - by apply create_not_Exited in Hc.
Qed.

Lemma emit_seed_frame (ev : Event) (w : World) :
  seed_event ev → seed_frame w (emit ev w).
Proof.
  intros Hev. split_and!; try done. exists [ev]. split; [done|]. by constructor.
Qed.

(** In every run, whatever fails, the seed script leaves posts and
    categories as they were, keeps the users that were there, in place, in
    front of the ones it adds, and does nothing but insert users, log and
    release the connection. *)
Theorem seed_script_only_appends_users (w : World) :
  posts (store (fst (Seed.script w))) = posts (store w)
  ∧ categories (store (fst (Seed.script w))) = categories (store w)
  ∧ users (store w) `prefix_of` users (store (fst (Seed.script w)))
  ∧ Forall seed_event (news w (fst (Seed.script w))).
Proof.
  assert (stable seed_frame Seed.script) as Hs.
  { apply stable_seed_script.
    - apply _.
    - intros w0. split_and!; try done. exists []. by rewrite app_nil_r.
    - apply create_seed_frame.
    - intros e w0. by apply emit_seed_frame.
    - intros e w0. by apply emit_seed_frame.
    - intros w0. by apply emit_seed_frame. }
  destruct (Hs w) as (Hp & Hc & Hu & evs & Ht & Hevs).
  by rewrite (news_app _ _ _ Ht).
Qed.

(** ** The store stays consistent *)

(** From a consistent store every program of the repository leaves a
    consistent store, whatever fails on the way: the seed script (in both
    versions), the factory and the five tests. *)
Theorem programs_keep_store_consistent (w : World) :
  store_wf (store w) →
  store_wf (store (fst (Seed.script w)))
  ∧ (∀ gen, store_wf (store (fst (Article.script gen w))))
  ∧ store_wf (store (fst (Factories.categoryFactory w)))
  ∧ store_wf (store (fst (CrudTest.should_create_new_user w)))
  ∧ store_wf (store (fst (CrudTest.should_get_all_users w)))
  ∧ store_wf (store (fst (CrudTest.should_update_user_information w)))
  ∧ store_wf (store (fst (CrudTest.should_delete_a_specific_user w)))
  ∧ store_wf (store (fst (CrudTest.factory_generates_five_categories w))).
Proof.
  intros Hwf.
  assert (∀ w0, wf_kept w0 (drawn w0)) as Hdraw by (by intros w0 ?).
  assert (∀ ev w0, wf_kept w0 (emit ev w0)) as Hemit by (by intros ev w0 ?).
  assert (∀ k i, stable wf_kept (findUnique k i)) as Hfind.
  { intros k i w0 H0. by rewrite findUnique_store. }
  assert (∀ k, stable wf_kept (findMany k)) as Hmany.
  { intros k w0 H0. by destruct (findMany_inv k w0) as (-> & _). }
  destruct (stable_factory_and_suite wf_kept Hdraw (create_wf KUser)
              (create_wf KCategory) (Hfind KUser) (Hmany KUser))
    as (Hfactory & _ & Hcreate & Hall & Hupdate & Hfive).
  split_and!.
  - apply (stable_seed_script wf_kept); auto using create_wf.
  - intros gen. apply (stable_article_script wf_kept); auto using create_wf.
  - by apply Hfactory.
  - by apply Hcreate.
  - by apply Hall.
  - by apply Hupdate.
  - apply (stable_delete_test wf_kept); auto using create_wf, delete_wf.
  - by apply Hfive.
Qed.

Lemma programs_keep_store_consistent_witness :
  store_wf (store (fst (Seed.script (world0 [false; true]))))
  ∧ store_wf (store (fst (CrudTest.should_delete_a_specific_user (world0 [])))).
Proof.
  assert (store_wf empty_store) as Hwf.
  { intros k r. destruct k; vm_compute; intros Hin; by apply elem_of_nil in Hin. }
  split.
  - by destruct (programs_keep_store_consistent (world0 [false; true]) Hwf)
      as (H & _).
  - by destruct (programs_keep_store_consistent (world0 []) Hwf)
      as (_ & _ & _ & _ & _ & _ & H & _).
Defined.

(** ** Rows are only appended *)

(** In every run, whatever fails, the factory and the tests other than the
    Delete test keep the users and the categories that were there, in
    place, in front of the rows they add, and never write a post. *)
Theorem factory_and_tests_only_append (w : World) :
  grows w (fst (Factories.categoryFactory w))
  ∧ grows w (fst (CrudTest.should_create_new_user w))
  ∧ grows w (fst (CrudTest.should_get_all_users w))
  ∧ grows w (fst (CrudTest.should_update_user_information w))
  ∧ grows w (fst (CrudTest.factory_generates_five_categories w)).
Proof.
  assert (∀ w0, grows w0 (drawn w0)) as Hdraw by (by intros w0).
  assert (∀ i, stable grows (findUnique KUser i)) as Hfind.
  { intros i w0. unfold grows. by rewrite findUnique_store. }
  assert (stable grows (findMany KUser)) as Hmany.
  { intros w0. unfold grows. by destruct (findMany_inv KUser w0) as (-> & _). }
  destruct (stable_factory_and_suite grows Hdraw
              (λ d, create_grows KUser d ltac:(done))
              (λ d, create_grows KCategory d ltac:(done)) Hfind Hmany)
    as (Hfactory & _ & Hcreate & Hall & Hupdate & Hfive).
  split_and!; [apply Hfactory|apply Hcreate|apply Hall|apply Hupdate|apply Hfive].
Qed.

(** ** The Delete test cleans up *)

Lemma filter_not_has_id (i : string) (rows : list Row) :
  filter (has_id i) rows = [] → filter (λ r', ¬ has_id i r') rows = rows.
Proof.
  induction rows as [|r rows IH]; [done|].
  destruct (decide (has_id i r)) as [Hr|Hr].
  - by rewrite filter_cons_True.
  - rewrite filter_cons_False by done. intros Hnone.
    rewrite (filter_cons_True (λ r', ¬ has_id i r')) by done. by rewrite IH.
Qed.

(** Deleting the row that was just created gives back the table as it was
    before the creation. *)
Lemma create_delete_restores (k : EntityKind) (data : Row) (w w1 w2 : World)
    (r d : Row) :
  create k data w = (w1, Ok r) →
  delete k (r !! "id") w1 = (w2, Ok d) →
  ∀ k', table k' (store w2) = table k' (store w).
Proof.
  intros Hc Hd k'.
  pose proof (create_Ok_id _ _ _ _ _ Hc) as (Hid & Htab & _).
  apply create_Ok in Hc as (_ & Hfresh & Hs1 & _).
  rewrite Hid in Hd. apply delete_Ok in Hd as (i & [= <-] & _ & Hs2 & _).
  rewrite Hs2, table_set_table. case_decide as Hk.
  - subst k'. rewrite Htab, filter_app, filter_not_has_id by done.
    rewrite filter_cons_False, filter_nil, app_nil_r; [done|]. by intros Hn.
  - by rewrite Hs1, table_set_table, decide_False, table_bump.
Qed.

(** In every run the Delete test leaves posts and categories as they were
    and keeps the users that were there; when it passes, the users are
    exactly the ones that were there: the row it created is gone and no
    other row is. *)
Theorem delete_test_restores_users (w : World) :
  posts (store (fst (CrudTest.should_delete_a_specific_user w))) = posts (store w)
  ∧ categories (store (fst (CrudTest.should_delete_a_specific_user w)))
    = categories (store w)
  ∧ users (store w)
    `prefix_of` users (store (fst (CrudTest.should_delete_a_specific_user w)))
  ∧ (snd (CrudTest.should_delete_a_specific_user w) = Ok tt →
     users (store (fst (CrudTest.should_delete_a_specific_user w)))
     = users (store w)).
Proof.
  unfold CrudTest.should_delete_a_specific_user, CrudTest.userData, bind, draw, ret.
  simpl.
  match goal with |- context [create ?k ?d ?w0] =>
    pose proof (create_grows k d ltac:(done) w0) as (Hu & Hc & Hp);
    pose proof (create_tables k d w0) as [Hother _];
    destruct (create k d w0) as [w1 [r|e|c]] eqn:Hcr end; simpl in *;
    [| |by apply create_not_Exited in Hcr].
  - destruct (delete KUser (r !! "id") w1) as [w2 [d|e|c]] eqn:Hd; simpl.
    + pose proof (create_delete_restores _ _ _ _ _ _ _ Hcr Hd) as Hback.
      pose proof (Hback KUser) as HbU. pose proof (Hback KPost) as HbP.
      pose proof (Hback KCategory) as HbC. simpl in HbU, HbP, HbC.
      destruct (findUnique KUser (r !! "id") w2) as [w3 [found|e|c]] eqn:Hf;
        apply findUnique_inv in Hf as (Hs3 & _); simpl;
        [destruct found; simpl|..]; rewrite Hs3, HbU; done.
    + apply delete_Err in Hd as [Hs2 _]. rewrite Hs2.
      split_and!; [done|apply (Hother KCategory); done|done|done].
    + pose proof (delete_store KUser (r !! "id") w1) as Hds.
      rewrite Hd in Hds. simpl in Hds.
      destruct Hds as [Hs2|(? & ? & _ & ? & _)]; [|done].
      rewrite Hs2. split_and!; [done|apply (Hother KCategory); done|done|done].
  - split_and!; [done|apply (Hother KCategory); done|done|done].
Qed.

(** ** On a consistent store that stays reachable *)

Lemma dial_env (w : World) :
  faker (snd (dial w)) = faker w ∧ draws (snd (dial w)) = draws w.
Proof. unfold dial. by destruct (outages w). Qed.

Lemma create_env (k : EntityKind) (data : Row) (w : World) :
  faker (fst (create k data w)) = faker w
  ∧ draws (fst (create k data w)) = draws w.
Proof.
  unfold create. pose proof (dial_env w) as He.
  destruct (dial w) as [up w0]. simpl in *.
  by destruct (if up then _ else _) as [s reply].
Qed.

(** A valid insertion into a healthy world: the row is the payload with
    the next identifier, and the world stays healthy. *)
Lemma create_healthy (k : EntityKind) (data : Row) (w : World) :
  healthy w →
  has_required k data = true → foreign_keys_ok k data (store w) = true →
  ∃ w1,
    create k data w = (w1, Ok (<["id" := uuid (nextId (store w))]> data))
    ∧ healthy w1
    ∧ table k (store w1)
      = table k (store w) ++ [<["id" := uuid (nextId (store w))]> data]
    ∧ (∀ k', k' ≠ k → table k' (store w1) = table k' (store w))
    ∧ nextId (store w1) = S (nextId (store w))
    ∧ faker w1 = faker w ∧ draws w1 = draws w.
Proof.
  intros [Hwf Hup] Hreq Hfk.
  destruct (create_succeeds k data w Hwf Hup Hreq Hfk) as (w1 & r & Hc & Hwf1 & Hup1).
  destruct (create_env k data w) as [Hf Hd]. rewrite Hc in Hf, Hd.
  destruct (create_tables k data w) as [Hother _]. rewrite Hc in Hother.
  pose proof (create_Ok_id _ _ _ _ _ Hc) as (_ & Htab & _ & Hnext).
  pose proof (create_Ok _ _ _ _ _ Hc) as (-> & _).
  exists w1. by split_and!.
Qed.

Lemma findUnique_up (k : EntityKind) (i : string) (w : World) :
  always_up w →
  ∃ w1, findUnique k (Some i) w = (w1, Ok (find_row i (table k (store w))))
        ∧ store w1 = store w ∧ always_up w1.
Proof.
  intros Hup. destruct (dial_always_up w Hup) as [Hdial Hup0].
  unfold findUnique. pose proof (dial_store w) as Hs.
  destruct (dial w) as [up w0]. simpl in *. subst up.
  eexists. rewrite Hs. by split_and!.
Qed.

Lemma delete_up (k : EntityKind) (i : string) (w : World) (r : Row) :
  always_up w → find_row i (table k (store w)) = Some r →
  ∃ w1, delete k (Some i) w = (w1, Ok r)
        ∧ store w1
          = set_table k (filter (λ r', ¬ has_id i r') (table k (store w))) (store w)
        ∧ always_up w1.
Proof.
  intros Hup Hfound. destruct (dial_always_up w Hup) as [Hdial Hup0].
  unfold delete. pose proof (dial_store w) as Hs.
  destruct (dial w) as [up w0]. simpl in *. subst up.
  unfold remove. rewrite Hs, Hfound. eexists. by split_and!.
Qed.

(** *** The seeder *)

Lemma round_healthy (w : World) :
  healthy w →
  ∃ w1, Seed.round w = (w1, Ok tt)
        ∧ healthy w1
        ∧ users (store w1) = users (store w) ++ [seeded_user w 0]
        ∧ nextId (store w1) = S (nextId (store w))
        ∧ faker w1 = faker w
        ∧ draws w1 = S (S (draws w))
        ∧ ∃ data, trace w1 = trace w ++ [EvCreate KUser data (inr (seeded_user w 0))].
Proof.
  intros Hw. unfold Seed.round, Seed.fakerUser, bind, draw, ret. simpl.
  match goal with |- context [create ?k ?d ?w0] =>
    destruct (create_healthy k d w0) as (w1 & Hc & Hw1 & Htab & _ & Hn & Hf & Hd);
      [done..|] end.
  pose proof (create_Ok _ _ _ _ _ Hc) as (_ & _ & _ & Ht).
  rewrite Hc. exists w1. simpl in *.
  unfold seeded_user. rewrite !Nat.add_0_r, Nat.add_1_r.
  split_and!; try done. by eexists.
Qed.

Lemma seeded_user_next (w w1 : World) (i : nat) :
  nextId (store w1) = S (nextId (store w)) →
  faker w1 = faker w → draws w1 = S (S (draws w)) →
  seeded_user w1 i = seeded_user w (S i).
Proof.
  intros Hn Hf Hd. unfold seeded_user. rewrite Hn, Hf, Hd.
  by replace (S (nextId (store w)) + i) with (nextId (store w) + S i) by lia;
    replace (S (S (draws w)) + 2 * i) with (draws w + 2 * S i) by lia.
Qed.

Lemma for_loop_round_healthy (n : nat) (w : World) :
  healthy w →
  ∃ w' evs,
    for_loop n Seed.round w = (w', Ok tt)
    ∧ healthy w'
    ∧ users (store w') = users (store w) ++ (seeded_user w <$> seq 0 n)
    ∧ trace w' = trace w ++ evs
    ∧ Forall is_success evs ∧ length evs = n.
Proof.
  revert w. induction n as [|n IH]; intros w Hw.
  { exists w, []. simpl. rewrite !app_nil_r. by split_and!. }
  destruct (round_healthy w Hw)
    as (w1 & Hr & Hw1 & Hu1 & Hn1 & Hf1 & Hd1 & data & Ht1).
  destruct (IH w1 Hw1) as (w' & evs & Hloop & Hw' & Hu & Ht & Hevs & Hlen).
  exists w', (EvCreate KUser data (inr (seeded_user w 0)) :: evs).
  simpl. rewrite (bind_Ok _ _ _ _ _ Hr).
  split_and!; [done|done| | |by constructor|by rewrite Hlen].
  - rewrite Hu, Hu1, <- app_assoc. simpl. do 2 f_equal.
    rewrite <- fmap_S_seq, <- list_fmap_compose.
    apply list_fmap_ext. intros i x _. simpl. by apply seeded_user_next.
  - by rewrite Ht, Ht1, <- app_assoc.
Qed.

(** On a consistent store that stays reachable the seeder inserts ten
    users and logs nothing.  The i-th new row has the i-th next identifier
    of the store, the first name of draw 2i and the e-mail address of draw
    2i+1; the store is consistent and reachable afterwards. *)
Theorem main_fills_ten_on_healthy_store (w : World) :
  healthy w →
  snd (Seed.main w) = Ok tt
  ∧ healthy (fst (Seed.main w))
  ∧ users (store (fst (Seed.main w)))
    = users (store w) ++ (seeded_user w <$> seq 0 10)
  ∧ Forall is_success (news w (fst (Seed.main w)))
  ∧ length (news w (fst (Seed.main w))) = 10.
Proof.
  intros Hw.
  destruct (for_loop_round_healthy Seed.fakerRounds w Hw)
    as (w' & evs & Hloop & Hw' & Hu & Ht & Hevs & Hlen).
  unfold Seed.main, try_catch. rewrite Hloop. simpl.
  rewrite (news_app _ _ _ Ht). by split_and!.
Qed.

(** The empty store with no outage scheduled is healthy. *)
Ltac healthy_world0 :=
  split;
  [intros k r; destruct k; vm_compute; intros Hin; by apply elem_of_nil in Hin
  |constructor].

Lemma main_fills_ten_on_healthy_store_witness :
  snd (Seed.main (world0 [])) = Ok tt
  ∧ length (users (store (fst (Seed.main (world0 []))))) = 10.
Proof.
  destruct (main_fills_ten_on_healthy_store (world0 []))
    as (Hres & _ & Hu & _); [healthy_world0|].
  split; [exact Hres|]. rewrite Hu. reflexivity.
Defined.

(** *** The tests *)

Lemma drawn_healthy (w : World) : healthy w → healthy (drawn w).
Proof. by intros [? ?]. Qed.

Lemma store_healthy (w w' : World) :
  store w' = store w → always_up w' → healthy w → healthy w'.
Proof. intros Hs Hup [Hwf _]. split; [by rewrite Hs|done]. Qed.

Lemma create_test_healthy (w : World) :
  healthy w →
  ∃ createdUser,
    snd (CrudTest.should_create_new_user w) = Ok tt
    ∧ healthy (fst (CrudTest.should_create_new_user w))
    ∧ users (store (fst (CrudTest.should_create_new_user w)))
      = users (store w) ++ [createdUser]
    ∧ categories (store (fst (CrudTest.should_create_new_user w)))
      = categories (store w).
Proof.
  intros Hw.
  unfold CrudTest.should_create_new_user, CrudTest.fakerUser, bind, draw, ret.
  simpl.
  match goal with |- context [create ?k ?d ?w0] =>
    destruct (create_healthy k d w0) as (w1 & Hc & Hw1 & Htab & Hother & _);
      [done..|] end.
  rewrite Hc. rewrite lookup_insert_eq.
  destruct (findUnique_up KUser (uuid (nextId (store w))) w1) as (w2 & Hf & Hs2 & Hup2);
    [apply Hw1|].
  simpl in *. rewrite Hf.
  pose proof (create_Ok_id _ _ _ _ _ Hc) as (_ & _ & Hone & _).
  simpl in Hone. unfold find_row. rewrite Hone. simpl.
  unfold expect_toEqual. rewrite decide_True by done. simpl.
  eexists. split_and!; [done|by eapply store_healthy|by rewrite Hs2|].
  rewrite Hs2. by apply (Hother KCategory).
Qed.

Lemma update_test_healthy (w : World) :
  healthy w →
  ∃ createdUser,
    snd (CrudTest.should_update_user_information w) = Ok tt
    ∧ healthy (fst (CrudTest.should_update_user_information w))
    ∧ users (store (fst (CrudTest.should_update_user_information w)))
      = users (store w) ++ [createdUser]
    ∧ categories (store (fst (CrudTest.should_update_user_information w)))
      = categories (store w).
Proof.
  intros Hw.
  destruct (should_update_only_creates w) as (data & reply & _ & Hres).
  revert Hres.
  unfold CrudTest.should_update_user_information, CrudTest.userData, bind, draw, ret.
  simpl.
  match goal with |- context [create ?k ?d ?w0] =>
    destruct (create_healthy k d w0) as (w1 & Hc & Hw1 & Htab & Hother & _);
      [done..|];
    pose proof (create_name_and_email _ _ _ _ _ Hc) as (_ & _ & H1 & H2 & _) end.
  rewrite Hc. simpl in *. rewrite H1. simpl. rewrite H2. simpl. intros _.
  eexists. split_and!; [done|done|done|]. by apply (Hother KCategory).
Qed.

Lemma delete_test_healthy (w : World) :
  healthy w →
  snd (CrudTest.should_delete_a_specific_user w) = Ok tt
  ∧ healthy (fst (CrudTest.should_delete_a_specific_user w))
  ∧ ∀ k, table k (store (fst (CrudTest.should_delete_a_specific_user w)))
         = table k (store w).
Proof.
  intros Hw.
  assert (store_wf (store (fst (CrudTest.should_delete_a_specific_user w))))
    as Hwf'.
  { apply (stable_delete_test wf_kept); auto using create_wf, delete_wf.
    - by intros w0 ?.
    - intros i w0 H0. by rewrite findUnique_store.
    - apply Hw. }
  revert Hwf'.
  unfold CrudTest.should_delete_a_specific_user, CrudTest.userData, bind, draw, ret.
  simpl.
  match goal with |- context [create ?k ?d ?w0] =>
    destruct (create_healthy k d w0) as (w1 & Hc & Hw1 & Htab & Hother & _);
      [done..|] end.
  rewrite Hc. rewrite lookup_insert_eq.
  pose proof (create_Ok_id _ _ _ _ _ Hc) as (_ & _ & Hone & _).
  simpl in *.
  match type of Hc with _ = (_, Ok ?r) =>
    destruct (delete_up KUser (uuid (nextId (store w))) w1 r) as (w2 & Hd & Hs2 & Hup2);
      [apply Hw1|by unfold find_row; simpl; rewrite Hone|] end.
  rewrite Hd.
  destruct (findUnique_up KUser (uuid (nextId (store w))) w2 Hup2)
    as (w3 & Hf & Hs3 & Hup3).
  rewrite Hf.
  assert (find_row (uuid (nextId (store w))) (table KUser (store w2)) = None) as ->.
  { rewrite Hs2, table_set_table, decide_True by done.
    apply find_row_None, filter_has_id_removed. }
  simpl. intros Hwf'. split_and!; [done|by split|].
  intros k. rewrite Hs3.
  eapply (create_delete_restores _ _ _ _ _ _ _ Hc).
  rewrite lookup_insert_eq. exact Hd.
Qed.

Lemma generate_healthy (n : nat) (acc : list Row) (w : World) :
  healthy w →
  ∃ w' new,
    CrudTest.generate n acc w = (w', Ok (acc ++ new))
    ∧ length new = n ∧ healthy w'
    ∧ categories (store w') = categories (store w) ++ new
    ∧ users (store w') = users (store w).
Proof.
  revert acc w. induction n as [|n IH]; intros acc w Hw.
  { exists w, []. simpl. unfold ret. rewrite !app_nil_r. by split_and!. }
  destruct (create_healthy KCategory
              (<["name" := lorem_word (faker w) (draws w)]> ∅) (drawn w))
    as (w1 & Hc & Hw1 & Htab & Hother & _); [by apply drawn_healthy|done..|].
  rewrite <- categoryFactory_is_create in Hc.
  destruct (IH (acc ++ [<["id" := uuid (nextId (store w))]>
                          (<["name" := lorem_word (faker w) (draws w)]> ∅)]) w1 Hw1)
    as (w' & new & Hg & Hlen & Hw' & Hcat & Hu).
  simpl. rewrite (bind_Ok _ _ _ _ _ Hc). simpl in *.
  eexists w', (_ :: new). rewrite <- app_assoc in Hg.
  split_and!; [exact Hg|by rewrite <- Hlen|done| |].
  - by rewrite Hcat, Htab, <- app_assoc.
  - rewrite Hu. by apply (Hother KUser).
Qed.

Lemma factory_test_healthy (w : World) :
  healthy w →
  snd (CrudTest.factory_generates_five_categories w) = Ok tt
  ∧ healthy (fst (CrudTest.factory_generates_five_categories w))
  ∧ users (store (fst (CrudTest.factory_generates_five_categories w)))
    = users (store w)
  ∧ length (categories (store (fst (CrudTest.factory_generates_five_categories w))))
    = length (categories (store w)) + 5.
Proof.
  intros Hw. unfold CrudTest.factory_generates_five_categories.
  destruct (generate_healthy CrudTest.numberOfCategoriesToGenerate [] w Hw)
    as (w' & new & Hg & Hlen & Hw' & Hcat & Hu).
  rewrite (bind_Ok _ _ _ _ _ Hg). simpl.
  unfold expect_toHaveLength. rewrite decide_True by done. simpl.
  split_and!; [done|done|done|]. by rewrite Hcat, length_app, Hlen.
Qed.

(** On a consistent store that stays reachable, whatever rows it holds,
    the Create, Update, Delete and Factory-volume tests pass, and leave a
    consistent reachable store: the Create and the Update test each with
    one more user, the Delete test with the users as they were, the
    Factory-volume test with five more categories. *)
Theorem self_contained_tests_pass (w : World) :
  healthy w →
  (snd (CrudTest.should_create_new_user w) = Ok tt
   ∧ healthy (fst (CrudTest.should_create_new_user w))
   ∧ length (users (store (fst (CrudTest.should_create_new_user w))))
     = S (length (users (store w))))
  ∧ (snd (CrudTest.should_update_user_information w) = Ok tt
     ∧ healthy (fst (CrudTest.should_update_user_information w))
     ∧ length (users (store (fst (CrudTest.should_update_user_information w))))
       = S (length (users (store w))))
  ∧ (snd (CrudTest.should_delete_a_specific_user w) = Ok tt
     ∧ healthy (fst (CrudTest.should_delete_a_specific_user w))
     ∧ users (store (fst (CrudTest.should_delete_a_specific_user w)))
       = users (store w))
  ∧ (snd (CrudTest.factory_generates_five_categories w) = Ok tt
     ∧ healthy (fst (CrudTest.factory_generates_five_categories w))
     ∧ length (categories (store (fst (CrudTest.factory_generates_five_categories w))))
       = length (categories (store w)) + 5).
Proof.
  intros Hw.
  destruct (create_test_healthy w Hw) as (r1 & Hr1 & Hw1 & Hu1 & _).
  destruct (update_test_healthy w Hw) as (r2 & Hr2 & Hw2 & Hu2 & _).
  destruct (delete_test_healthy w Hw) as (Hr3 & Hw3 & Hu3).
  destruct (factory_test_healthy w Hw) as (Hr4 & Hw4 & _ & Hc4).
  split_and!; try done.
  - rewrite Hu1, length_app. simpl. lia.
  - rewrite Hu2, length_app. simpl. lia.
  - apply (Hu3 KUser).
Qed.

Lemma self_contained_tests_pass_witness :
  snd (CrudTest.should_create_new_user (world0 [])) = Ok tt
  ∧ snd (CrudTest.should_delete_a_specific_user (world0 [])) = Ok tt
  ∧ users (store (fst (CrudTest.should_delete_a_specific_user (world0 [])))) = [].
Proof.
  destruct (self_contained_tests_pass (world0 []))
    as ((Hc & _) & _ & (Hd & _ & Hu) & _); [healthy_world0|].
  exact (conj Hc (conj Hd Hu)).
Defined.

Lemma get_all_healthy (w : World) :
  healthy w → users (store w) ≠ [] →
  snd (CrudTest.should_get_all_users w) = Ok tt
  ∧ healthy (fst (CrudTest.should_get_all_users w))
  ∧ store (fst (CrudTest.should_get_all_users w)) = store w.
Proof.
  intros [Hwf Hup] Hne.
  destruct (dial_always_up w Hup) as [Hdial Hup0].
  pose proof (dial_store w) as Hs.
  unfold CrudTest.should_get_all_users, bind, findMany.
  destruct (dial w) as [up w0]. simpl in *. subst up. simpl.
  rewrite Hs.
  destruct (users (store w)) as [|u us]; [done|]. simpl.
  split_and!; [done| |done]. split; [simpl; by rewrite Hs|done].
Qed.

(** *** The whole file, in order *)

(** On a consistent store that stays reachable, even an empty one, the
    five tests run in the order of the file all pass: the Read-all test
    finds the user the Create test has left.  Afterwards the store holds
    two more users and five more categories. *)
Theorem crud_tests_pass_in_file_order (w : World) :
  healthy w →
  snd (run_tests crud_tests w) = [Ok tt; Ok tt; Ok tt; Ok tt; Ok tt]
  ∧ healthy (fst (run_tests crud_tests w))
  ∧ length (users (store (fst (run_tests crud_tests w))))
    = length (users (store w)) + 2
  ∧ length (categories (store (fst (run_tests crud_tests w))))
    = length (categories (store w)) + 5.
Proof.
  intros Hw. unfold crud_tests. simpl.
  destruct (create_test_healthy w Hw) as (r1 & Hr1 & Hw1 & Hu1 & Hc1).
  destruct (CrudTest.should_create_new_user w) as [w1 v1]. simpl in *. subst v1.
  destruct (get_all_healthy w1 Hw1) as (Hr2 & Hw2 & Hs2).
  { rewrite Hu1. by destruct (users (store w)). }
  destruct (CrudTest.should_get_all_users w1) as [w2 v2]. simpl in *. subst v2.
  destruct (update_test_healthy w2 Hw2) as (r3 & Hr3 & Hw3 & Hu3 & Hc3).
  destruct (CrudTest.should_update_user_information w2) as [w3 v3].
  simpl in *. subst v3.
  destruct (delete_test_healthy w3 Hw3) as (Hr4 & Hw4 & Ht4).
  pose proof (Ht4 KUser) as Hu4. pose proof (Ht4 KCategory) as Hc4.
  destruct (CrudTest.should_delete_a_specific_user w3) as [w4 v4].
  simpl in *. subst v4.
  destruct (factory_test_healthy w4 Hw4) as (Hr5 & Hw5 & Hu5 & Hc5).
  destruct (CrudTest.factory_generates_five_categories w4) as [w5 v5].
  simpl in *. subst v5.
  split_and!; [done|done| |].
  - rewrite Hu5, Hu4, Hu3, Hs2, Hu1, !length_app. simpl. lia.
  - rewrite Hc5, Hc4, Hc3, Hs2, Hc1. done.
Qed.

Lemma crud_tests_pass_in_file_order_witness :
  snd (run_tests crud_tests (world0 [])) = [Ok tt; Ok tt; Ok tt; Ok tt; Ok tt]
  ∧ length (users (store (fst (run_tests crud_tests (world0 []))))) = 2
  ∧ length (categories (store (fst (run_tests crud_tests (world0 []))))) = 5.
Proof.
  destruct (crud_tests_pass_in_file_order (world0 []))
    as (Hv & _ & Hu & Hc); [healthy_world0|].
  exact (conj Hv (conj Hu Hc)).
Defined.

(** *** Reading after seeding *)

Lemma script_is_main_then_disconnect (w : World) :
  Seed.script w = (emit EvDisconnect (fst (Seed.main w)), Ok tt).
Proof.
  unfold Seed.script, Seed.top_level, try_catch.
  destruct (main_inv w) as (_ & _ & Hres & _).
  destruct (Seed.main w) as [w1 res] eqn:Hmain. simpl in Hres. subst res.
  by rewrite (bind_Ok _ _ _ _ _ Hmain).
Qed.



(** ** The article's seed script *)

(** A loop of single insertions of users: some rounds insert a row each,
    and either all [n] rounds do, or the round after them is rejected and
    the loop is rejected with its error. *)
Lemma for_loop_inserting (body : M unit) (n : nat) (w : World) :
  inserts_one_user body →
  ∃ (good : list Event) (rows : list Row),
    users (store (fst (for_loop n body w))) = users (store w) ++ rows
    ∧ Forall is_success good
    ∧ length good = length rows
    ∧ (snd (for_loop n body w) = Ok tt
       ∧ length rows = n
       ∧ trace (fst (for_loop n body w)) = trace w ++ good
       ∨ ∃ data e,
           snd (for_loop n body w) = Err e
           ∧ length rows < n
           ∧ trace (fst (for_loop n body w))
             = trace w ++ good ++ [EvCreate KUser data (inl e)]).
Proof.
  intros Hbody. revert w. induction n as [|n IH]; intros w.
  { exists [], []. simpl. rewrite !app_nil_r. split_and!; try done. by left. }
  simpl.
  destruct (Hbody w) as (data & reply & Ht & Hreply).
  destruct (body w) as [w1 res] eqn:Hround. simpl in *.
  destruct reply as [e|r]; destruct Hreply as [-> Hu].
  - rewrite (bind_Err _ _ _ _ _ Hround). simpl.
    exists [], []. simpl. rewrite Hu, app_nil_r. split_and!; try done.
    right. exists data, e. split_and!; [done|lia|done].
  - rewrite (bind_Ok _ _ _ _ _ Hround).
    destruct (IH w1) as (good & rows & Hu' & Hgood & Hlen & Hcases).
    exists (EvCreate KUser data (inr r) :: good), (r :: rows).
    rewrite Hu', Hu, <- app_assoc. simpl.
    split_and!; [done|by constructor|by rewrite Hlen|].
    destruct Hcases as [(-> & <- & ->)|(data' & e & -> & Hlt & ->)].
    + left. by rewrite Ht, <- app_assoc.
    + right. exists data', e. split_and!; [done|lia|].
      by rewrite Ht, <- app_assoc.
Qed.

Lemma article_round_inserts_one_user (gen : Faker → nat → string) :
  inserts_one_user (Article.round gen).
Proof.
  intros w. unfold Article.round, bind, draw, ret. simpl.
  match goal with |- context [create ?k ?d ?w0] =>
    destruct (create k d w0) as [w1 [r|e|c]] eqn:Hc; exists d end.
  - pose proof (create_Ok_id _ _ _ _ _ Hc) as (_ & Htab & _).
    apply create_Ok in Hc as (_ & _ & _ & Ht). by exists (inr r).
  - apply create_Err in Hc as (Htab & _ & Ht). exists (inl e).
    split_and!; [done|done|apply (Htab KUser)].
  - by apply create_not_Exited in Hc.
Qed.

(** The two ways a run of the article's script ends. *)
Lemma article_script_inv (gen : Faker → nat → string) (w : World) :
  ∃ (good : list Event) (rows : list Row),
    users (store (fst (Article.script gen w))) = users (store w) ++ rows
    ∧ Forall is_success good
    ∧ length good = length rows
    ∧ (snd (Article.script gen w) = Ok tt
       ∧ length rows = 10
       ∧ trace (fst (Article.script gen w)) = trace w ++ good ++ [EvDisconnect]
       ∨ ∃ data e,
           snd (Article.script gen w) = Exited 1
           ∧ length rows < 10
           ∧ trace (fst (Article.script gen w))
             = trace w ++ good ++ [EvCreate KUser data (inl e); EvConsoleError e]).
Proof.
  destruct (for_loop_inserting (Article.round gen) 10 w
              (article_round_inserts_one_user gen))
    as (good & rows & Hu & Hgood & Hlen & Hcases).
  unfold Article.script, Article.main, finally_, try_catch.
  destruct (for_loop 10 (Article.round gen) w) as [w1 res]. simpl in *.
  exists good, rows.
  destruct Hcases as [(-> & Hn & Ht)|(data & e & -> & Hlt & Ht)]; simpl.
  - split_and!; try done. left. by rewrite Ht, <- app_assoc.
  - split_and!; try done. right. exists data, e.
    split_and!; [done|done|]. by rewrite Ht, <- !app_assoc.
Qed.

(** The article's script reports a rejected insertion differently from
    [prisma/seed.ts].  When an insertion is rejected the error is logged
    with [console.error] and the process exits with status 1 at once: the
    rejected insertion is the last attempt, all attempts before it were
    fulfilled and their rows stay, [console.error] is the last thing the
    process does, and the connection is never released.  When none is
    rejected, ten insertions are attempted, ten users are inserted, the
    connection is released and the run is fulfilled. *)
Theorem article_script_exits_one_without_disconnect
    (gen : Faker → nat → string) (w : World) :
  (∀ data e,
     EvCreate KUser data (inl e) ∈ news w (fst (Article.script gen w)) →
     snd (Article.script gen w) = Exited 1
     ∧ exit_status (snd (Article.script gen w)) = 1
     ∧ last (news w (fst (Article.script gen w))) = Some (EvConsoleError e)
     ∧ (EvDisconnect ∉ news w (fst (Article.script gen w)))
     ∧ length (attempts (news w (fst (Article.script gen w)))) ≤ 10
     ∧ last (attempts (news w (fst (Article.script gen w))))
       = Some (EvCreate KUser data (inl e))
     ∧ ∃ before : list Event,
         news w (fst (Article.script gen w))
         = before ++ [EvCreate KUser data (inl e); EvConsoleError e]
         ∧ Forall is_success before
         ∧ attempts (news w (fst (Article.script gen w)))
           = before ++ [EvCreate KUser data (inl e)]
         ∧ length (users (store (fst (Article.script gen w))))
           = length (users (store w)) + length before)
  ∧ (Forall (λ ev, is_failure ev = false)
       (attempts (news w (fst (Article.script gen w)))) →
     snd (Article.script gen w) = Ok tt
     ∧ last (news w (fst (Article.script gen w))) = Some EvDisconnect
     ∧ length (attempts (news w (fst (Article.script gen w)))) = 10
     ∧ length (users (store (fst (Article.script gen w))))
       = length (users (store w)) + 10).
Proof.
  destruct (article_script_inv gen w)
    as (good & rows & Hu & Hgood & Hlen & Hcases).
  assert (∀ ev, ev ∈ good → is_success ev) as Hsucc by (by apply Forall_forall).
  destruct Hcases as [(Hres & Hn & Ht)|(data & e & Hres & Hlt & Ht)];
    apply news_app in Ht; rewrite Ht, Hres.
  - assert (attempts (good ++ [EvDisconnect]) = good) as Hatt.
    { unfold attempts. rewrite filter_app. fold (attempts good).
      rewrite attempts_successes by done.
      rewrite filter_cons_False, filter_nil, app_nil_r by (by intros ?). done. }
    split.
    + intros data e [Hin|Hin]%elem_of_app; [by apply Hsucc in Hin|].
      apply list_elem_of_singleton in Hin. discriminate Hin.
    + intros _. split_and!; [done|apply last_snoc|by rewrite Hatt, Hlen|].
      rewrite Hu, length_app. lia.
  - assert (attempts (good ++ [EvCreate KUser data (inl e); EvConsoleError e])
            = good ++ [EvCreate KUser data (inl e)]) as Hatt.
    { unfold attempts. rewrite filter_app. fold (attempts good).
      by rewrite attempts_successes. }
    split.
    + intros data' e' Hin.
      assert (data' = data ∧ e' = e) as [-> ->].
      { apply elem_of_app in Hin as [Hin|Hin]; [by apply Hsucc in Hin|].
        rewrite !elem_of_cons, elem_of_nil in Hin.
        destruct Hin as [Hin|[Hin|[]]]; by simplify_eq. }
      split_and!; [done|done| | | | |].
      * by rewrite last_app.
      * intros [Hbad|Hbad]%elem_of_app; [by apply Hsucc in Hbad|].
        rewrite !elem_of_cons, elem_of_nil in Hbad.
        destruct Hbad as [Hbad|[Hbad|[]]]; discriminate Hbad.
      * rewrite Hatt, length_app. simpl. lia.
      * rewrite Hatt. apply last_snoc.
      * exists good. split_and!; [done|done|done|].
        rewrite Hu, length_app. lia.
    + rewrite Hatt. intros Hall. apply Forall_app in Hall as [_ Hall].
      apply Forall_inv in Hall. discriminate Hall.
Qed.

Lemma article_script_exits_one_without_disconnect_witness :
  exit_status (snd (Article.script person_firstName (world0 [false; true]))) = 1
  ∧ (EvDisconnect
     ∉ news (world0 [false; true])
         (fst (Article.script person_firstName (world0 [false; true])))).
Proof.
  destruct (article_script_exits_one_without_disconnect person_firstName
              (world0 [false; true])) as [Hfail _].
  destruct (Hfail (<["name" := "Ada2"]> (<["email" := "ada3@example.com"]> ∅))
              ConnectivityFailure) as (_ & H1 & _ & Hnot & _).
  - vm_compute. right. left.
  - exact (conj H1 Hnot).
Defined.

(** ** The article's code against the repository's *)

Lemma for_loop_ext (body body' : M unit) (n : nat) (w : World) :
  (∀ w0, body w0 = body' w0) → for_loop n body w = for_loop n body' w.
Proof.
  intros Hext. revert w. induction n as [|n IH]; intros w; [done|].
  simpl. unfold bind. rewrite Hext.
  destruct (body' w) as [w1 [[]|e|c]]; [apply IH|done..].
Qed.

Lemma article_round_is_seed_round (w : World) :
  Article.round person_firstName w = Seed.round w.
Proof. unfold Article.round, Seed.round, Seed.fakerUser, bind, draw, ret. done. Qed.

(** With [faker.person.firstName] for its generator, the article's script
    and [prisma/seed.ts] attempt the same insertions and leave the same
    store in every run.  They differ in what the process reports:
    [seed.ts] always ends with status 0, the article's script ends with
    status 0 exactly when no insertion was rejected. *)
Theorem article_script_agrees_with_seed_script (w : World) :
  store (fst (Article.script person_firstName w)) = store (fst (Seed.script w))
  ∧ attempts (news w (fst (Article.script person_firstName w)))
    = attempts (news w (fst (Seed.script w)))
  ∧ exit_status (snd (Seed.script w)) = 0
  ∧ (exit_status (snd (Article.script person_firstName w)) = 0
     ↔ Forall (λ ev, is_failure ev = false)
         (attempts (news w (fst (Seed.script w))))).
Proof.
  rewrite script_is_main_then_disconnect.
  unfold Article.script, Article.main, Seed.main, finally_, try_catch.
  rewrite (for_loop_ext _ Seed.round 10 w article_round_is_seed_round).
  change 10 with Seed.fakerRounds.
  destruct (for_loop_round_inv Seed.fakerRounds w)
    as (good & rows & _ & Hgood & _ & Hcases).
  destruct (for_loop Seed.fakerRounds Seed.round w) as [w1 res]. simpl in *.
  destruct Hcases as [(-> & _ & Ht)|(data & e & -> & _ & Ht)]; simpl.
  - split_and!; [done|done|done|]. split; [|done]. intros _.
    unfold news. simpl. rewrite Ht, <- app_assoc, drop_app_length.
    unfold attempts. rewrite filter_app. fold (attempts good).
    rewrite attempts_successes by done. simpl.
    rewrite filter_cons_False, filter_nil, app_nil_r by (by intros ?).
    eapply Forall_impl; [exact Hgood|]. by intros [? ? []| | | | | | |].
  - unfold news. simpl. rewrite Ht, <- !app_assoc, !drop_app_length.
    unfold attempts. rewrite !filter_app. fold (attempts good).
    rewrite attempts_successes by done. simpl.
    split_and!; [done|done|done|]. split; [done|].
    intros [_ Hall]%Forall_app. apply Forall_inv in Hall. discriminate Hall.
Qed.

(** The factory as the article prints it passes [categoryData] itself to
    [create], where the repository's factory copies its [name] into a new
    object; the article's Create test builds its payload inline, where the
    repository's calls a local [fakerUser].  In every world each of the
    two runs exactly as its counterpart (the test with
    [faker.person.fullName] for its generator). *)
Theorem article_factory_and_test_are_the_repository_ones (w : World) :
  Article.categoryFactory w = Factories.categoryFactory w
  ∧ Article.should_create_new_user person_fullName w
    = CrudTest.should_create_new_user w.
Proof.
  split.
  - unfold Article.categoryFactory, Factories.categoryFactory, bind, draw, property.
    simpl. by rewrite lookup_insert_eq.
  - unfold Article.should_create_new_user, CrudTest.should_create_new_user,
      CrudTest.fakerUser, bind, draw, ret.
    done.
Qed.

(** ** The Factory-volume test stops at the first rejection *)

Lemma generate_inv (n : nat) (acc : list Row) (w : World) :
  ∃ (good : list Event) (new : list Row),
    categories (store (fst (CrudTest.generate n acc w)))
      = categories (store w) ++ new
    ∧ Forall is_success good
    ∧ length good = length new
    ∧ (snd (CrudTest.generate n acc w) = Ok (acc ++ new)
       ∧ length new = n
       ∧ trace (fst (CrudTest.generate n acc w)) = trace w ++ good
       ∨ ∃ data e,
           snd (CrudTest.generate n acc w) = Err e
           ∧ length new < n
           ∧ trace (fst (CrudTest.generate n acc w))
             = trace w ++ good ++ [EvCreate KCategory data (inl e)]).
Proof.
  revert acc w. induction n as [|n IH]; intros acc w.
  { exists [], []. simpl. rewrite !app_nil_r. split_and!; try done. by left. }
  simpl.
  destruct (categoryFactory_trace w) as (reply & Ht).
  destruct (Factories.categoryFactory w) as [w1 [r|e|c]] eqn:Hf.
  - rewrite (bind_Ok _ _ _ _ _ Hf).
    pose proof (categoryFactory_Ok _ _ _ Hf) as (_ & _ & Hcat).
    assert (reply = inr r) as ->.
    { rewrite categoryFactory_is_create in Hf.
      apply create_Ok in Hf as (_ & _ & _ & Ht'). simpl in Ht.
      rewrite Ht' in Ht. apply app_inv_head in Ht. congruence. }
    destruct (IH (acc ++ [r]) w1) as (good & new & Hc' & Hgood & Hlen & Hcases).
    exists (EvCreate KCategory (<["name" := lorem_word (faker w) (draws w)]> ∅)
              (inr r) :: good), (r :: new).
    rewrite Hc', Hcat, <- app_assoc. simpl in *.
    split_and!; [done|by constructor|by rewrite Hlen|].
    destruct Hcases as [(-> & <- & ->)|(data' & e & -> & Hlt & ->)].
    + left. by rewrite Ht, <- !app_assoc.
    + right. exists data', e. split_and!; [done|lia|].
      by rewrite Ht, <- !app_assoc.
  - rewrite (bind_Err _ _ _ _ _ Hf). simpl.
    rewrite categoryFactory_is_create in Hf.
    apply create_Err in Hf as (Htab & _ & Ht').
    exists [], []. rewrite app_nil_r. split_and!; [apply (Htab KCategory)|done..|].
    right. eexists _, e. split_and!; [done|simpl; lia|exact Ht'].
  - rewrite categoryFactory_is_create in Hf. by apply create_not_Exited in Hf.
Qed.

(** The loop of the Factory-volume test has no [catch].  When its (n+1)-th
    call of the factory is rejected, the test is rejected with that very
    error and not with a failed assertion, no further call is made, and
    the [n] categories inserted before stay in the store. *)
Theorem factory_test_stops_at_first_rejection (w : World) (n : nat) (ev : Event) :
  attempts (news w (fst (CrudTest.factory_generates_five_categories w))) !! n
    = Some ev →
  is_failure ev = true →
  n < 5
  ∧ length (attempts (news w (fst (CrudTest.factory_generates_five_categories w))))
    = S n
  ∧ length (categories (store (fst (CrudTest.factory_generates_five_categories w))))
    = length (categories (store w)) + n
  ∧ ∃ data e,
      ev = EvCreate KCategory data (inl e)
      ∧ snd (CrudTest.factory_generates_five_categories w) = Err e.
Proof.
  unfold CrudTest.factory_generates_five_categories, bind.
  destruct (generate_inv CrudTest.numberOfCategoriesToGenerate [] w)
    as (good & new & Hcat & Hgood & Hlen & Hcases).
  destruct (CrudTest.generate _ [] w) as [w1 res]. simpl in *.
  destruct Hcases as [(-> & Hn & Ht)|(data & e & -> & Hlt & Ht)]; simpl.
  - assert (trace (fst (expect_toHaveLength new
              CrudTest.numberOfCategoriesToGenerate w1)) = trace w1) as Ht'.
    { unfold expect_toHaveLength. by case_decide. }
    unfold news. rewrite Ht', Ht, drop_app_length, attempts_successes by done.
    intros Hev Hfail. by destruct (is_success_not_failure good n ev).
  - apply news_app in Ht. rewrite Ht.
    assert (attempts (good ++ [EvCreate KCategory data (inl e)])
            = good ++ [EvCreate KCategory data (inl e)]) as ->.
    { unfold attempts. rewrite filter_app. fold (attempts good).
      by rewrite attempts_successes. }
    intros Hev Hfail.
    apply lookup_app_Some in Hev as [Hev|[Hge Hev]].
    { by destruct (is_success_not_failure good n ev). }
    apply list_lookup_singleton_Some in Hev as [Hn <-].
    assert (n = length new) as -> by lia.
    unfold CrudTest.numberOfCategoriesToGenerate in Hlt.
    split_and!; [done| | |by exists data, e].
    + rewrite length_app. simpl. lia.
    + by rewrite Hcat, length_app.
Qed.

Lemma factory_test_stops_at_first_rejection_witness :
  length (categories (store
    (fst (CrudTest.factory_generates_five_categories (world0 [false; false; true])))))
  = 0 + 2
  ∧ snd (CrudTest.factory_generates_five_categories (world0 [false; false; true]))
    = Err ConnectivityFailure.
Proof.
  destruct (factory_test_stops_at_first_rejection (world0 [false; false; true]) 2
    (EvCreate KCategory (<["name" := "lorem2"]> ∅) (inl ConnectivityFailure)))
    as (_ & _ & Hlen & data & e & Hev & Hres); [vm_compute; reflexivity..|].
  split; [exact Hlen|]. rewrite Hres. by simplify_eq.
Defined.

Lemma delete_test_restores_users_witness :
  snd (CrudTest.should_delete_a_specific_user (world0 [])) = Ok tt
  ∧ users (store (fst (CrudTest.should_delete_a_specific_user (world0 []))))
    = users (store (world0 [])).
Proof.
  destruct (delete_test_restores_users (world0 [])) as (_ & _ & _ & Hback).
  assert (snd (CrudTest.should_delete_a_specific_user (world0 [])) = Ok tt)
    as Hres by (vm_compute; reflexivity).
  exact (conj Hres (Hback Hres)).
Defined.
